(** * simple-do-spaces: the [SpacesClient] of [src/index.js]

    A shallow embedding of the client class and of the part of its JavaScript
    runtime that its methods exercise.

    - JavaScript values, truthiness and default parameters ([JsVal]).
    - The runtime's [URL] class, used by [getCDNURL] (module [URL]).
    - Requests to the two collaborators (the S3 client and the DigitalOcean
      CDN API reached through axios), programs over them ([Prog]) and their
      execution against an arbitrary gateway ([run]).
    - The methods of [SpacesClient], in the order of the source.
    - The event handlers of [downloadFile] (module [Download]).

    Strings are byte strings: a JavaScript string is read as its UTF-8
    encoding, which is what the URL parser percent-encodes. *)

From Stdlib Require Import List String Ascii ZArith NArith Lia Bool.
From Stdlib Require Import Sorting.Sorted Sorting.Permutation.
From Stdlib Require Import DecimalString.
From stdpp Require Import gmap strings.
Import ListNotations.

Set Implicit Arguments.

(* ================================================================== *)
(** ** JavaScript values *)

(** The values an option of the loosely typed options bags can hold. *)
Inductive JsVal : Type :=
| JsUndefined
| JsNull
| JsBool (b : bool)
| JsNum (z : Z)
| JsStr (s : string).

(** ToBoolean. *)
Definition truthy (v : JsVal) : bool :=
  match v with
  | JsUndefined | JsNull => false
  | JsBool b => b
  | JsNum z => negb (z =? 0)%Z
  | JsStr s => negb (String.eqb s EmptyString)
  end.

(** A default parameter or destructuring default [x = d]: [d] replaces
    [undefined] only. *)
Definition default_to (d v : JsVal) : JsVal :=
  match v with
  | JsUndefined => d
  | _ => v
  end.

(** Strict equality with a string literal: [v === lit]. *)
Definition strict_eq_str (v : JsVal) (lit : string) : bool :=
  match v with
  | JsStr s => String.eqb s lit
  | _ => false
  end.

(** A constructor argument that is [null] or a string. *)
Definition truthy_str (o : option string) : bool :=
  match o with
  | Some s => negb (String.eqb s EmptyString)
  | None => false
  end.

(** What a JavaScript [Error] carries here. [Error_ m] is [new Error(m)]
    thrown by this module, [TypeError_] is thrown by the runtime, and
    [Rejection] is the reason a collaborator rejected a promise with. *)
Inductive Error : Type :=
| Error_ (message : string)
| TypeError_ (message : string)
| Rejection (reason : string).

(** The outcome of evaluating a piece of the source. [Unmodelled] marks
    inputs on which the runtime's behaviour is left out of this model (see
    module [URL]); it is never caught and never counts as a result. *)
Inductive Outcome (A : Type) : Type :=
| Returns (a : A)
| Throws (e : Error)
| Unmodelled.

Arguments Throws {A} e.
Arguments Unmodelled {A}.

(* ================================================================== *)
(** ** The runtime's URL class

    [new URL(input)], the [host] setter and the [href] getter of the WHATWG
    URL standard, for the inputs [getURL] builds: absolute [https:] URLs.
    Left out, and answered [Unmodelled]: other schemes, credentials in the
    authority, IPv4 and IPv6 hosts, percent-encoded or non-ASCII hosts and
    Punycode labels. *)
Module URL.

Definition code (c : ascii) : nat := nat_of_ascii c.

Definition is_c0_or_space (c : ascii) : bool := code c <=? 32.

Definition is_tab_or_newline (c : ascii) : bool :=
  (code c =? 9) || (code c =? 10) || (code c =? 13).

Definition is_digit (c : ascii) : bool := (48 <=? code c) && (code c <=? 57).

Definition is_upper (c : ascii) : bool := (65 <=? code c) && (code c <=? 90).

Definition is_hex_digit (c : ascii) : bool :=
  is_digit c || ((65 <=? code c) && (code c <=? 70))
             || ((97 <=? code c) && (code c <=? 102)).

Definition to_lower (c : ascii) : ascii :=
  if is_upper c then ascii_of_nat (code c + 32) else c.

Definition chars (s : string) : list ascii := list_ascii_of_string s.

Definition one_of (s : string) (c : ascii) : bool :=
  existsb (Ascii.eqb c) (chars s).

(** The percent-encode sets of the standard. *)
Definition in_c0_control_set (c : ascii) : bool :=
  (code c <=? 31) || (126 <? code c).

(** The double quote, U+0022. *)
Definition is_dquote (c : ascii) : bool := code c =? 34.

Definition in_fragment_set (c : ascii) : bool :=
  in_c0_control_set c || is_dquote c || one_of " <>`" c.

Definition in_query_set (c : ascii) : bool :=
  in_c0_control_set c || is_dquote c || one_of " #<>" c.

Definition in_special_query_set (c : ascii) : bool :=
  in_query_set c || one_of "'" c.

(** The path set as the runtime has it: the caret is kept in a path. *)
Definition in_path_set (c : ascii) : bool :=
  in_query_set c || one_of "?`{}" c.

Definition hex_digit (n : nat) : ascii :=
  if n <? 10 then ascii_of_nat (48 + n) else ascii_of_nat (55 + n).

Definition percent_encode (c : ascii) : list ascii :=
  ["%"%char; hex_digit (code c / 16); hex_digit (code c mod 16)].

Definition encode_with (set : ascii -> bool) (c : ascii) : list ascii :=
  if set c then percent_encode c else [c].

Definition encode_all (set : ascii -> bool) (s : list ascii) : list ascii :=
  flat_map (encode_with set) s.

(** [span p s]: the longest prefix of [s] none of whose characters
    satisfies [p], and what follows it. *)
Fixpoint span (p : ascii -> bool) (s : list ascii) : list ascii * list ascii :=
  match s with
  | [] => ([], [])
  | c :: r => if p c then ([], s)
              else let (a, b) := span p r in (c :: a, b)
  end.

Fixpoint drop_while (p : ascii -> bool) (s : list ascii) : list ascii :=
  match s with
  | [] => []
  | c :: r => if p c then drop_while p r else s
  end.

Fixpoint split_on (sep : ascii) (s : list ascii) : list (list ascii) :=
  match s with
  | [] => [[]]
  | c :: r =>
      if Ascii.eqb c sep then [] :: split_on sep r
      else match split_on sep r with
           | [] => [[c]]
           | l :: ls => (c :: l) :: ls
           end
  end.

Fixpoint starts_with (pre s : list ascii) : bool :=
  match pre, s with
  | [], _ => true
  | p :: pre', c :: s' => Ascii.eqb p c && starts_with pre' s'
  | _ :: _, [] => false
  end.

Definition list_eqb (a b : list ascii) : bool :=
  String.eqb (string_of_list_ascii a) (string_of_list_ascii b).

(** Step 1 and 3 of the basic URL parser: leading and trailing C0 control
    or space are stripped (only when there is no URL to modify), then every
    ASCII tab or newline is removed. *)
Definition strip (s : list ascii) : list ascii :=
  rev (drop_while is_c0_or_space (rev (drop_while is_c0_or_space s))).

Definition remove_tab_newline (s : list ascii) : list ascii :=
  List.filter (fun c => negb (is_tab_or_newline c)) s.

Record t : Type := mk {
  host : list ascii;
  port : option N;
  path : list (list ascii);
  query : option (list ascii);
  fragment : option (list ascii)
}.

(** *** The host parser *)

Inductive host_result : Type :=
| HostOk (h : list ascii)
| HostFailure
| HostUnmodelled.

Definition is_forbidden_domain_code_point (c : ascii) : bool :=
  is_c0_or_space c || (code c =? 127)
  || one_of "#/:<>?@[\]^|%" c.

Definition is_number_label (l : list ascii) : bool :=
  match l with
  | [] => false
  | c :: r =>
      forallb is_digit l
      || (Ascii.eqb c "0"
          && match r with
             | x :: h => (Ascii.eqb x "x" || Ascii.eqb x "X") && forallb is_hex_digit h
             | [] => false
             end)
  end.

(** The ends-in-a-number checker. *)
Definition ends_in_number (h : list ascii) : bool :=
  match rev (split_on "." h) with
  | [] => false
  | [] :: [] => false
  | [] :: l :: _ => is_number_label l
  | l :: _ => is_number_label l
  end.

Definition host_parse (input : list ascii) : host_result :=
  if existsb (fun c => one_of "[]%" c || (127 <? code c)) input then HostUnmodelled
  else
    let d := map to_lower input in
    if existsb (starts_with (chars "xn--")) (split_on "." d) then HostUnmodelled
    else if existsb is_forbidden_domain_code_point d then HostFailure
    else if ends_in_number d then HostUnmodelled
    else match d with
         | [] => HostFailure
         | _ => HostOk d
         end.

(** *** The path state *)

Definition is_single_dot (buf : list ascii) : bool :=
  let b := map to_lower buf in
  list_eqb b (chars ".") || list_eqb b (chars "%2e").

Definition is_double_dot (buf : list ascii) : bool :=
  let b := map to_lower buf in
  list_eqb b (chars "..") || list_eqb b (chars ".%2e")
  || list_eqb b (chars "%2e.") || list_eqb b (chars "%2e%2e").

Definition is_slash (c : ascii) : bool := one_of "/\" c.

(** What the path state does with its buffer at the end of a segment;
    [slash] says whether the segment ended at a slash. *)
Definition end_segment (buf : list ascii) (slash : bool)
    (p : list (list ascii)) : list (list ascii) :=
  if is_double_dot buf then
    if slash then removelast p else removelast p ++ [[]]
  else if is_single_dot buf then
    if slash then p else p ++ [[]]
  else p ++ [buf].

(** The path state, run to the first [?] or [#] or to the end of the
    input; the rest of the input is returned with the path. *)
Fixpoint path_state (input buf : list ascii) (p : list (list ascii))
    : list (list ascii) * list ascii :=
  match input with
  | [] => (end_segment buf false p, [])
  | c :: r =>
      if is_slash c then path_state r [] (end_segment buf true p)
      else if one_of "?#" c then (end_segment buf false p, input)
      else path_state r (buf ++ encode_with in_path_set c) p
  end.

(** The path start state of a special URL: one leading slash belongs to
    it. *)
Definition path_start (input : list ascii) : list (list ascii) * list ascii :=
  match input with
  | c :: r => if is_slash c then path_state r [] [] else path_state input [] []
  | [] => path_state [] [] []
  end.

(** The query and fragment states. *)
Definition query_fragment (input : list ascii)
    : option (list ascii) * option (list ascii) :=
  let frag (s : list ascii) :=
    match s with
    | _ :: f => Some (encode_all in_fragment_set f)
    | [] => None
    end in
  match input with
  | c :: r =>
      if Ascii.eqb c "?" then
        let (q, rest) := span (Ascii.eqb "#"%char) r in
        (Some (encode_all in_special_query_set q), frag rest)
      else (None, frag input)
  | [] => (None, None)
  end.

(** *** The port state *)

Fixpoint digits_value (acc : N) (s : list ascii) : N :=
  match s with
  | [] => acc
  | c :: r => digits_value (acc * 10 + N.of_nat (code c - 48)) r
  end.

Definition default_port : N := 443.

Definition normalise_port (n : N) : option N :=
  if N.eqb n default_port then None else Some n.

(** *** [new URL(input)] *)

Inductive parse_result : Type :=
| Parsed (u : t)
| Failure
| NotModelled.

Definition is_authority_end (c : ascii) : bool := one_of "/?#\" c.

Definition parse (input : list ascii) : parse_result :=
  let s := remove_tab_newline (strip input) in
  if negb (starts_with (chars "https:") s) then NotModelled
  else
    let after := drop_while is_slash (skipn 6 s) in
    let (auth, rest) := span is_authority_end after in
    if existsb (Ascii.eqb "@"%char) auth then NotModelled
    else
      let (h, prt) := span (Ascii.eqb ":"%char) auth in
      match h with
      | [] => Failure
      | _ =>
          match host_parse h with
          | HostUnmodelled => NotModelled
          | HostFailure => Failure
          | HostOk h' =>
              let digits := tl prt in
              if negb (forallb is_digit digits) then Failure
              else if (65535 <? digits_value 0 digits)%N then Failure
              else
                let (p, rest') := path_start rest in
                let (q, f) := query_fragment rest' in
                Parsed {| host := h';
                          port := match digits with
                                  | [] => None
                                  | _ => normalise_port (digits_value 0 digits)
                                  end;
                          path := p; query := q; fragment := f |}
          end
      end.

(** *** The [host] setter

    The basic URL parser run on the given value with the host state as
    state override. A value that does not parse leaves the URL as it is. *)
Inductive set_result : Type :=
| SetDone (u : t)
| SetNotModelled.

Definition set_host (u : t) (value : list ascii) : set_result :=
  let v := remove_tab_newline value in
  let (h, rest) := span (fun c => is_authority_end c || Ascii.eqb c ":") v in
  match h with
  | [] => SetDone u
  | _ =>
      match host_parse h with
      | HostUnmodelled => SetNotModelled
      | HostFailure => SetDone u
      | HostOk h' =>
          let u' := {| host := h'; port := port u; path := path u;
                       query := query u; fragment := fragment u |} in
          match rest with
          | c :: r =>
              if Ascii.eqb c ":" then
                let (digits, _) := span (fun c => negb (is_digit c)) r in
                match digits with
                | [] => SetDone u'
                | _ =>
                    if (65535 <? digits_value 0 digits)%N then SetDone u'
                    else SetDone {| host := h';
                                    port := normalise_port (digits_value 0 digits);
                                    path := path u; query := query u;
                                    fragment := fragment u |}
                end
              else SetDone u'
          | [] => SetDone u'
          end
      end
  end.

(** *** The [href] getter: the URL serializer *)

Definition decimal (n : N) : list ascii :=
  chars (NilEmpty.string_of_uint (N.to_uint n)).

Definition serialize_path (p : list (list ascii)) : list ascii :=
  flat_map (fun seg => "/"%char :: seg) p.

Definition href (u : t) : list ascii :=
  chars "https://" ++ host u
  ++ match port u with
     | Some n => ":"%char :: decimal n
     | None => []
     end
  ++ serialize_path (path u)
  ++ match query u with
     | Some q => "?"%char :: q
     | None => []
     end
  ++ match fragment u with
     | Some f => "#"%char :: f
     | None => []
     end.

End URL.

(* ================================================================== *)
(** ** Records of the two collaborators *)

(** An entry of [data.Contents] in the answer to [listObjectsV2]. *)
Record S3Object : Type := {
  Key : string;
  LastModified : Z;      (* a Date, as its [getTime()] in epoch milliseconds *)
  ETag : string;
  Size : Z
}.

(** An entry of the [Delete.Objects] parameter of [deleteObjects]. *)
Record ObjectIdentifier : Type := { IdKey : string }.

(** What [deleteObjects] and [deletePaths] read of their arguments: the
    [Key] property. *)
Class HasKey (T : Type) : Type := key_of : T -> string.

#[export] Instance S3Object_HasKey : HasKey S3Object := Key.
#[export] Instance ObjectIdentifier_HasKey : HasKey ObjectIdentifier := IdKey.

(** The answer of a successful [deleteObjects]. *)
Record DeleteObjectsOutput : Type := {
  Deleted : list string;
  Errors : list string
}.

(** An entry of [data.endpoints] in the answer of the CDN API. *)
Record CdnEndpoint : Type := {
  id : string;
  origin : string;
  ttl : Z
}.

(** A value computed from a local file by a library: the read stream
    [fs.createReadStream] opens on it, and the MIME type [mime.lookup] finds
    for its name. Both are handed to the S3 client as they come. *)
Inductive FromFile : Type :=
| createReadStream (path : string)
| mime_lookup (path : string).

(** The object literal [uploadFile] hands to [s3client.upload], part by
    part: the five properties it writes out, then [spread], the own
    properties of [spacesOptions], which are spread last and so replace a
    written property of the same name ([received] below). *)
Record UploadParams : Type := {
  Bucket : string;
  Body : FromFile;
  UploadKey : string;
  ACL : JsVal;
  ContentType : FromFile;
  spread : list (string * JsVal)
}.

(** The requests the client sends, indexed by what a fulfilled answer
    holds. *)
Inductive Request : Type -> Type :=
| S3Upload (params : UploadParams) : Request unit
| S3ListObjectsV2 (bucket prefix : string) : Request (list S3Object)
| S3DeleteObjects (bucket : string) (objects : list ObjectIdentifier)
    : Request DeleteObjectsOutput
| CdnListEndpoints (authorization : string) : Request (list CdnEndpoint)
| CdnPurgeCache (cdnEndpointId authorization : string) (files : list string)
    : Request unit.

(** A promise of a collaborator settles: rejected with an error or
    fulfilled with a value. *)
Definition Settled (X : Type) : Type := (Error + X)%type.

(* ================================================================== *)
(** ** Programs *)

(** A program sends requests and goes on with their answers. *)
Inductive Prog (A : Type) : Type :=
| Ret (a : A)
| Call (X : Type) (r : Request X) (k : Settled X -> Prog A).

Arguments Ret {A} a.
Arguments Call {A X} r k.

Fixpoint bindP {A B : Type} (p : Prog A) (f : A -> Prog B) : Prog B :=
  match p with
  | Ret a => f a
  | Call r k => Call r (fun x => bindP (k x) f)
  end.

(** The fields of the class. [accessKeyId] and [secretAccessKey] only
    configure the S3 client and are not kept. *)
Record SpacesClient : Type := {
  endpoint : string;
  bucket : string;
  digitalOceanAPIToken : option string;
  cdnEndpointId : option string;
  customCdnHost : option string
}.

Definition set_cdnEndpointId (v : option string) (c : SpacesClient) : SpacesClient :=
  {| endpoint := endpoint c; bucket := bucket c;
     digitalOceanAPIToken := digitalOceanAPIToken c;
     cdnEndpointId := v; customCdnHost := customCdnHost c |}.

(** An async method: it runs on [this], sends requests, may assign to a
    field, and returns or throws. *)
Definition M (A : Type) : Type := SpacesClient -> Prog (SpacesClient * Outcome A).

Definition ret {A : Type} (a : A) : M A := fun this => Ret (this, Returns a).

Definition throw {A : Type} (e : Error) : M A := fun this => Ret (this, Throws e).

Definition bind {A B : Type} (m : M A) (f : A -> M B) : M B :=
  fun this =>
    bindP (m this) (fun r =>
      match r with
      | (this', Returns a) => f a this'
      | (this', Throws e) => Ret (this', Throws e)
      | (this', Unmodelled) => Ret (this', Unmodelled)
      end).

Notation "x <- m ;; k" := (bind m (fun x => k))
  (at level 100, m at next level, right associativity).

Definition get_this : M SpacesClient := fun this => Ret (this, Returns this).

Definition assign_cdnEndpointId (v : string) : M unit :=
  fun this => Ret (set_cdnEndpointId (Some v) this, Returns tt).

(** What a settled promise becomes for the caller that awaits it. *)
Definition awaited {X : Type} (x : Settled X) : Outcome X :=
  match x with
  | inl e => Throws e
  | inr v => Returns v
  end.

(** [await] of a collaborator's promise. *)
Definition await {X : Type} (r : Request X) : M X :=
  fun this => Call r (fun x => Ret (this, awaited x)).

(** A synchronous call. *)
Definition lift {A : Type} (o : Outcome A) : M A := fun this => Ret (this, o).

(** [try { return await m } catch (e) { h e }]. *)
Definition try_catch {A : Type} (m : M A) (h : Error -> M A) : M A :=
  fun this =>
    bindP (m this) (fun r =>
      match r with
      | (this', Throws e) => h e this'
      | _ => Ret r
      end).

(** [Array.prototype.map] with a callback that may throw. *)
Fixpoint map_outcome {A B : Type} (f : A -> Outcome B) (l : list A)
    : Outcome (list B) :=
  match l with
  | [] => Returns []
  | x :: r =>
      match f x with
      | Returns y =>
          match map_outcome f r with
          | Returns ys => Returns (y :: ys)
          | Throws e => Throws e
          | Unmodelled => Unmodelled
          end
      | Throws e => Throws e
      | Unmodelled => Unmodelled
      end
  end.

(** The string a field holds that was found truthy. *)
Definition the (o : option string) : string :=
  match o with
  | Some s => s
  | None => EmptyString
  end.

(** A template literal's rendering of a field that is [null] or a string. *)
Definition template (o : option string) : string :=
  match o with
  | Some s => s
  | None => "null"
  end.

(** [String.prototype.split] at a one-character separator. *)
Definition js_split (sep : ascii) (s : string) : list string :=
  map string_of_list_ascii (URL.split_on sep (list_ascii_of_string s)).

(* ================================================================== *)
(** ** Array.prototype.sort

    ECMAScript 2019 requires the sort to be stable, and for a consistent
    comparator the stable sorted arrangement of an array is unique; the
    insertion sort below computes it. [cmp a b] is the number the comparator
    returns: [a] goes after [b] when it is positive. *)
Section ArraySort.
Variable A : Type.
Variable cmp : A -> A -> Z.

Fixpoint sort_insert (x : A) (l : list A) : list A :=
  match l with
  | [] => [x]
  | y :: r => if (cmp x y <=? 0)%Z then x :: l else y :: sort_insert x r
  end.

Definition Array_sort (l : list A) : list A := fold_right sort_insert [] l.
End ArraySort.

(* ================================================================== *)
(** ** exponential-backoff

    [backOff(request)] with the library's default options: up to
    [numOfAttempts] attempts, every error retried ([retry] answers true), the
    error of the last attempt thrown. The delays between attempts are not
    modelled. *)
Definition numOfAttempts : nat := 10.

(** [retries] is the number of attempts left after the next one. *)
Fixpoint backOff_loop {A : Type} (retries : nat) (request : M A) : M A :=
  match retries with
  | O => request
  | S n => try_catch request (fun _ => backOff_loop n request)
  end.

Definition backOff {A : Type} (request : M A) : M A :=
  backOff_loop (numOfAttempts - 1) request.

(* ================================================================== *)
(** ** src/index.js *)

Module SortOrder.
Definition ASC : string := "ASC".
Definition DESC : string := "DESC".
End SortOrder.

(** An entry of the list [listPathFiles] returns. *)
Record FileEntry : Type := {
  url : string;
  lastModified : Z
}.

Definition sortFilesByDate (filesList : list FileEntry) (sortByDate : JsVal)
    : list FileEntry :=
  let sortByDate := default_to (JsStr SortOrder.ASC) sortByDate in
  Array_sort
    (fun a b =>
       if strict_eq_str sortByDate SortOrder.DESC
       then (lastModified b - lastModified a)%Z
       else (lastModified a - lastModified b)%Z)
    filesList.

Definition getURL (this : SpacesClient) (path : string) : string :=
  ("https://" ++ bucket this ++ "." ++ endpoint this ++ "/" ++ path)%string.

Definition default_cdn_host : string := "cdn.digitaloceanspaces".

Definition getCDNURL (this : SpacesClient) (path : string) : Outcome string :=
  let url := getURL this path in
  match URL.parse (URL.chars url) with
  | URL.Failure => Throws (TypeError_ "Invalid URL")
  | URL.NotModelled => Unmodelled
  | URL.Parsed cdnUrl =>
      let value :=
        if truthy_str (customCdnHost this) then the (customCdnHost this)
        else default_cdn_host in
      match URL.set_host cdnUrl (URL.chars value) with
      | URL.SetNotModelled => Unmodelled
      | URL.SetDone cdnUrl' => Returns (string_of_list_ascii (URL.href cdnUrl'))
      end
  end.

Definition no_api_token : string := "No API Token configured".

Definition no_cdn_endpoint (bucket : string) : string :=
  ("No CDN endpoint found for bucket: " ++ bucket)%string.

Definition bearer (token : option string) : string :=
  ("Bearer " ++ template token)%string.

(** The callback of [cdnEndpoints.find]. *)
Definition origin_matches (this : SpacesClient) (e : CdnEndpoint) : bool :=
  match js_split "." (origin e) with
  | endpointBucket :: _ => String.eqb (bucket this) endpointBucket
  | [] => false
  end.

Definition getCDNEndpointId : M string :=
  this <- get_this ;;
  if negb (truthy_str (digitalOceanAPIToken this)) then
    throw (Error_ no_api_token)
  else if truthy_str (cdnEndpointId this) then
    ret (the (cdnEndpointId this))
  else
    cdnEndpoints <- await (CdnListEndpoints (bearer (digitalOceanAPIToken this))) ;;
    match find (origin_matches this) cdnEndpoints with
    | None => throw (Error_ (no_cdn_endpoint (bucket this)))
    | Some currentCdnEndpoint =>
        _ <- assign_cdnEndpointId (id currentCdnEndpoint) ;;
        this' <- get_this ;;
        ret (the (cdnEndpointId this'))
    end.

(** The options bag of [uploadFile]; an absent property is [JsUndefined]. *)
Record UploadOptions : Type := {
  exponentialBackoff : JsVal;
  purgeCache : JsVal;
  spacesOptions : list (string * JsVal)
}.

Definition uploadParams (this : SpacesClient) (uploadFilePath destinationPath : string)
    (permission : JsVal) (spacesOptions : list (string * JsVal)) : UploadParams :=
  {| Bucket := bucket this;
     Body := createReadStream uploadFilePath;
     UploadKey := destinationPath;
     ACL := if strict_eq_str permission "public" then JsStr "public-read"
            else permission;
     ContentType := mime_lookup uploadFilePath;
     spread := spacesOptions |}.

Definition makeUpload (uploadFilePath destinationPath : string)
    (permission purgeCache : JsVal) (spacesOptions : list (string * JsVal))
    : M string :=
  this <- get_this ;;
  _ <- await (S3Upload (uploadParams this uploadFilePath destinationPath
                          permission spacesOptions)) ;;
  _ <- (if truthy purgeCache then
          cdnEndpointId <- getCDNEndpointId ;;
          this' <- get_this ;;
          await (CdnPurgeCache cdnEndpointId (bearer (digitalOceanAPIToken this'))
                   [destinationPath])
        else ret tt) ;;
  this'' <- get_this ;;
  lift (getCDNURL this'' destinationPath).

Definition uploadFile (uploadFilePath destinationPath : string)
    (permission : JsVal) (options : UploadOptions) : M string :=
  let permission := default_to (JsStr "private") permission in
  let exponentialBackoff := default_to (JsBool false) (exponentialBackoff options) in
  let purgeCache := default_to (JsBool false) (purgeCache options) in
  let makeUpload :=
    makeUpload uploadFilePath destinationPath permission purgeCache
      (spacesOptions options) in
  if truthy exponentialBackoff then backOff makeUpload else makeUpload.

Definition listPathObjects (path : string) : M (list S3Object) :=
  this <- get_this ;;
  await (S3ListObjectsV2 (bucket this) path).

(** The options bag of [listPathFiles]. *)
Record ListOptions : Type := {
  sortByDate : JsVal;
  pathOnly : JsVal
}.

(** The callback of [objects.map] in [listPathFiles]. *)
Definition toFileEntry (this : SpacesClient) (pathOnly : JsVal) (object : S3Object)
    : Outcome FileEntry :=
  match (if truthy pathOnly then Returns (Key object)
         else getCDNURL this (Key object)) with
  | Returns u => Returns {| url := u; lastModified := LastModified object |}
  | Throws e => Throws e
  | Unmodelled => Unmodelled
  end.

Definition listPathFiles (path : string) (options : ListOptions)
    : M (list FileEntry) :=
  let pathOnly := default_to (JsBool false) (pathOnly options) in
  objects <- listPathObjects path ;;
  this <- get_this ;;
  filesList <- lift (map_outcome (toFileEntry this pathOnly) objects) ;;
  ret (sortFilesByDate filesList (sortByDate options)).

Definition deleteObjects {T : Type} `{HasKey T} (objects : list T)
    : M DeleteObjectsOutput :=
  this <- get_this ;;
  await (S3DeleteObjects (bucket this)
           (map (fun object => {| IdKey := key_of object |}) objects)).

Definition deletePaths (paths : list string) : M DeleteObjectsOutput :=
  let objects := map (fun path => {| IdKey := path |}) paths in
  deleteObjects objects.

Definition deleteFile (path : string) : M DeleteObjectsOutput :=
  deleteObjects [{| IdKey := path |}].

Definition deleteFolder (folderPath : string) : M DeleteObjectsOutput :=
  objects <- listPathObjects folderPath ;;
  deleteObjects objects.

(* ================================================================== *)
(** ** Running a program against the collaborators *)

(** A request sent, with how its promise settled. *)
Inductive Event : Type :=
| Ev (X : Type) (r : Request X) (x : Settled X).

Definition is_upload (e : Event) : bool :=
  match e with Ev (S3Upload _) _ => true | _ => false end.

Definition is_delete (e : Event) : bool :=
  match e with Ev (S3DeleteObjects _ _) _ => true | _ => false end.

Definition is_list_endpoints (e : Event) : bool :=
  match e with Ev (CdnListEndpoints _) _ => true | _ => false end.

Definition is_purge (e : Event) : bool :=
  match e with Ev (CdnPurgeCache _ _ _) _ => true | _ => false end.

(** The keys a delete request carries; [None] for any other request. *)
Definition delete_keys (e : Event) : option (list string) :=
  match e with
  | Ev (S3DeleteObjects _ objects) _ => Some (map IdKey objects)
  | _ => None
  end.

Definition fulfilled (e : Event) : bool :=
  match e with Ev _ (inr _) => true | Ev _ (inl _) => false end.

Section Run.
(** The state of everything behind the two gateways, and how they answer:
    any deterministic behaviour. *)
Variable W : Type.
Variable gateway : forall X : Type, Request X -> W -> W * Settled X.

Fixpoint run {A : Type} (p : Prog A) (w : W) : list Event * W * A :=
  match p with
  | Ret a => ([], w, a)
  | Call r k =>
      let (w', x) := gateway r w in
      let '(t, w'', a) := run (k x) w' in
      (Ev r x :: t, w'', a)
  end.

Definition trace_of {A : Type} (p : Prog A) (w : W) : list Event :=
  fst (fst (run p w)).

Definition result_of {A : Type} (p : Prog A) (w : W) : A :=
  snd (run p w).
End Run.

(* ================================================================== *)
(** ** downloadFile

    The promise executor of [downloadFile] opens a write stream on the local
    file, starts the request and registers two handlers. What happens next is
    decided by the events the runtime delivers; the handlers are the source's,
    the effects of the streams on the file system are the runtime's. *)
Module Download.

Inductive Promise : Type :=
| Pending
| Fulfilled (value : string)
| Rejected (reason : Error).

(** [resolve] and [reject] settle a pending promise and are ignored by a
    settled one. *)
Definition settle (new p : Promise) : Promise :=
  match p with
  | Pending => new
  | _ => p
  end.

(** The descriptor of the write stream: not yet opened, open on the
    directory entry of the local path, or open on a file whose entry was
    removed. *)
Inductive Descriptor : Type :=
| NotOpened
| OpenLinked
| OpenUnlinked.

Record State : Type := {
  fs : gmap string (list ascii);   (* the regular files, by path *)
  fd : Descriptor;
  promise : Promise;
  uncaught : list Error            (* exceptions thrown out of a handler *)
}.

Inductive Event : Type :=
| WriteOpened                       (* the write stream has opened its file *)
| Chunk (bytes : list ascii)        (* the pipe writes a chunk *)
| RequestError (error : Error)      (* the request emits 'error' *)
| StreamError (error : Error)       (* the read stream emits 'error' *)
| WriteFinish.                      (* the write stream emits 'finish' *)

Definition enoent : Error := Rejection "ENOENT".

(** [fs.unlinkSync]. *)
Definition unlinkSync (path : string) (files : gmap string (list ascii))
    : Error + gmap string (list ascii) :=
  match files !! path with
  | Some _ => inr (delete path files)
  | None => inl enoent
  end.

(** The ['error'] handler: [fs.unlinkSync(filePathToSave); reject(error)]. *)
Definition on_error (filePathToSave : string) (error : Error) (s : State) : State :=
  match unlinkSync filePathToSave (fs s) with
  | inl thrown =>
      {| fs := fs s; fd := fd s; promise := promise s;
         uncaught := uncaught s ++ [thrown] |}
  | inr files =>
      {| fs := files;
         fd := match fd s with OpenLinked => OpenUnlinked | d => d end;
         promise := settle (Rejected error) (promise s);
         uncaught := uncaught s |}
  end.

(** The ['finish'] handler: [resolve(filePathToSave)]. *)
Definition on_finish (filePathToSave : string) (s : State) : State :=
  {| fs := fs s; fd := fd s;
     promise := settle (Fulfilled filePathToSave) (promise s);
     uncaught := uncaught s |}.

(** What the handlers of [downloadFile] make of an event. The ['error']
    handler is registered on the request, before [createReadStream()] is
    called on it; the stream that call returns, which is the one piped into
    the file, gets no listener from [downloadFile], so that an ['error'] it
    emits runs no code of [downloadFile]. *)
Definition step (filePathToSave : string) (s : State) (ev : Event) : State :=
  match ev with
  | WriteOpened =>
      match fd s with
      | NotOpened =>
          {| fs := <[filePathToSave := []]> (fs s); fd := OpenLinked;
             promise := promise s; uncaught := uncaught s |}
      | _ => s
      end
  | Chunk bytes =>
      match fd s with
      | OpenLinked =>
          {| fs := alter (fun content => content ++ bytes) filePathToSave (fs s);
             fd := fd s; promise := promise s; uncaught := uncaught s |}
      | _ => s
      end
  | RequestError error => on_error filePathToSave error s
  | StreamError _ => s
  | WriteFinish => on_finish filePathToSave s
  end.

(** [downloadFile(filePathToRead, filePathToSave, createDirIfNotExists)]
    on the files [files], where [mkdir] is how [fs.promises.mkdir] settles
    and [events] are the events delivered afterwards. *)
Definition downloadFile (filePathToRead filePathToSave : string)
    (createDirIfNotExists : JsVal) (mkdir : Settled unit)
    (files : gmap string (list ascii)) (events : list Event) : State :=
  let start := {| fs := files; fd := NotOpened; promise := Pending;
                  uncaught := [] |} in
  match (if truthy (default_to (JsBool true) createDirIfNotExists)
         then mkdir else inr tt) with
  | inl e =>
      {| fs := files; fd := NotOpened; promise := Rejected e; uncaught := [] |}
  | inr _ => fold_left (step filePathToSave) events start
  end.

(** The events before the error of a download that was under way: the write
    stream has opened the file, and chunks were written. *)
Definition is_write (ev : Event) : bool :=
  match ev with
  | WriteOpened | Chunk _ => true
  | RequestError _ | StreamError _ | WriteFinish => false
  end.

Definition is_request_error (ev : Event) : bool :=
  match ev with
  | RequestError _ => true
  | _ => false
  end.

Definition is_finish (ev : Event) : bool :=
  match ev with
  | WriteFinish => true
  | _ => false
  end.

Definition is_open (ev : Event) : bool :=
  match ev with
  | WriteOpened => true
  | _ => false
  end.

(** The download is under way: the promise is pending and the write stream
    holds the local file open under its path. *)
Definition under_way (filePathToSave : string) (s : State) : Prop :=
  promise s = Pending /\ fd s = OpenLinked /\ is_Some (fs s !! filePathToSave).

(** The download has failed with [error] and left no file. *)
Definition cleaned_up (filePathToSave : string) (error : Error) (s : State) : Prop :=
  promise s = Rejected error /\ fd s = OpenUnlinked /\ fs s !! filePathToSave = None.

End Download.

(* ================================================================== *)
(** ** Two calls in a row, and the words of the specification *)

(** [m] run to its outcome, which is handed back as a value (what a caller
    sees who awaits the call inside [try]/[catch]). *)
Definition settled {A : Type} (m : M A) : M (Outcome A) :=
  fun this => bindP (m this) (fun r => Ret (fst r, Returns (snd r))).

(** The same method called twice in a row on the same client. *)
Definition call_twice {A : Type} (m : M A) : M (Outcome A * Outcome A) :=
  first <- settled m ;;
  second <- settled m ;;
  ret (first, second).

(** The leading label of a host name, in the specification's words: the
    substring before the first ['.']. *)
Fixpoint before_first_dot (s : string) : string :=
  match s with
  | EmptyString => EmptyString
  | String c r => if Ascii.eqb c "." then EmptyString
                  else String c (before_first_dot r)
  end.









(** The two kinds of error the client raises itself. *)
Definition is_configuration_error (e : Error) : Prop := e = Error_ no_api_token.

Definition is_not_found_error (this : SpacesClient) (e : Error) : Prop :=
  e = Error_ (no_cdn_endpoint (bucket this)).

(* ================================================================== *)
(** ** A scripted gateway, to run examples against *)

Record Mock : Type := {
  mock_contents : list S3Object;
  mock_endpoints : Settled (list CdnEndpoint);
  mock_upload : Settled unit;
  mock_rejects_empty_delete : bool
}.

(** Its state counts the requests it has answered. *)
Definition mock (m : Mock) (X : Type) (r : Request X) (n : nat) : nat * Settled X :=
  (S n,
   match r in Request X return Settled X with
   | S3Upload _ => mock_upload m
   | S3ListObjectsV2 _ prefix =>
       inr (List.filter (fun o => String.prefix prefix (Key o)) (mock_contents m))
   | S3DeleteObjects _ objects =>
       match objects with
       | [] => if mock_rejects_empty_delete m then inl (Rejection "MalformedXML")
               else inr {| Deleted := []; Errors := [] |}
       | _ => inr {| Deleted := map IdKey objects; Errors := [] |}
       end
   | CdnListEndpoints _ => mock_endpoints m
   | CdnPurgeCache _ _ _ => inr tt
   end).

Definition nyc3 : string := "nyc3.digitaloceanspaces.com".

Definition client (token : option string) : SpacesClient :=
  {| endpoint := nyc3; bucket := "assets"; digitalOceanAPIToken := token;
     cdnEndpointId := None; customCdnHost := None |}.

Definition client_at (endpoint : string) (host : option string) : SpacesClient :=
  {| endpoint := endpoint; bucket := "assets"; digitalOceanAPIToken := None;
     cdnEndpointId := None; customCdnHost := host |}.

Definition assets_endpoint (i : string) : CdnEndpoint :=
  {| id := i; origin := "assets.nyc3.digitaloceanspaces.com"; ttl := 3600 |}.

Definition other_endpoint : CdnEndpoint :=
  {| id := "e-1"; origin := "static.ams3.digitaloceanspaces.com"; ttl := 3600 |}.

Definition mock_of (endpoints : list CdnEndpoint) (contents : list S3Object)
    (rejects : bool) : Mock :=
  {| mock_contents := contents; mock_endpoints := inr endpoints;
     mock_upload := inr tt; mock_rejects_empty_delete := rejects |}.

Definition three_objects : list S3Object :=
  [ {| Key := "img/b.png"; LastModified := 1700000002000; ETag := "b"; Size := 20 |};
    {| Key := "img/a.png"; LastModified := 1700000001000; ETag := "a"; Size := 10 |};
    {| Key := "doc/c.pdf"; LastModified := 1700000002000; ETag := "c"; Size := 30 |} ].

Definition three_entries : list FileEntry :=
  map (fun o => {| url := Key o; lastModified := LastModified o |}) three_objects.

Definition list_options (sort only : JsVal) : ListOptions :=
  {| sortByDate := sort; pathOnly := only |}.

(* ================================================================== *)
(** ** The object requests: ACL, copy, presigned URL

    [isFilePublic], [copyFile] and [getPresignedURL] read the fields of the
    client and send requests of their own to the S3 client; they assign to
    nothing. *)

(** An entry of [acl.Grants]; [GranteeURI] is [Grantee.URI], which only
    group grantees have. *)
Record Grant : Type := {
  GranteeURI : option string;
  Permission : string
}.

Record CopyParams : Type := {
  CopyBucket : string;
  CopySource : string;
  CopyKey : string;
  CopyACL : string
}.

Record SignParams : Type := {
  SignBucket : string;
  SignKey : string;
  Expires : JsVal
}.

Inductive ObjectRequest : Type -> Type :=
| S3GetObjectAcl (bucket key : string) : ObjectRequest (list Grant)
| S3CopyObject (params : CopyParams) : ObjectRequest unit
| S3GetSignedUrl (operation : string) (params : SignParams) : ObjectRequest string.

(** A method that sends object requests and returns or throws. *)
Inductive Script (A : Type) : Type :=
| Done (o : Outcome A)
| Ask (X : Type) (r : ObjectRequest X) (k : Settled X -> Script A).

Arguments Done {A} o.
Arguments Ask {A X} r k.

(** [await r], then [k] on its value; a rejection is thrown on. *)
Definition ask {A X : Type} (r : ObjectRequest X) (k : X -> Script A) : Script A :=
  Ask r (fun x =>
    match x with
    | inl e => Done (Throws e)
    | inr v => k v
    end).

Fixpoint then_ {A B : Type} (s : Script A) (k : A -> Script B) : Script B :=
  match s with
  | Done (Returns a) => k a
  | Done (Throws e) => Done (Throws e)
  | Done Unmodelled => Done Unmodelled
  | Ask r f => Ask r (fun x => then_ (f x) k)
  end.

Inductive ObjectEvent : Type :=
| ObjEv (X : Type) (r : ObjectRequest X) (x : Settled X).

Definition is_copy (e : ObjectEvent) : bool :=
  match e with ObjEv (S3CopyObject _) _ => true | _ => false end.

Section Play.
Variable W : Type.
Variable s3 : forall X : Type, ObjectRequest X -> W -> W * Settled X.

Fixpoint play {A : Type} (s : Script A) (w : W) : list ObjectEvent * W * Outcome A :=
  match s with
  | Done o => ([], w, o)
  | Ask r k =>
      let (w', x) := s3 r w in
      let '(t, w'', o) := play (k x) w' in
      (ObjEv r x :: t, w'', o)
  end.
End Play.

(** [hay.match(/needle/)] is not [null]: [needle] occurs in [hay]. *)
Fixpoint includes (needle hay : string) : bool :=
  String.prefix needle hay
  || match hay with
     | EmptyString => false
     | String _ rest => includes needle rest
     end.

(** The callback of [acl.Grants.some] in [isFilePublic]. *)
Definition grants_public_read (g : Grant) : bool :=
  let isAllUsers :=
    truthy_str (GranteeURI g) && includes "AllUsers" (the (GranteeURI g)) in
  let isRead := String.eqb (Permission g) "READ" in
  isAllUsers && isRead.

Definition getPresignedURL (this : SpacesClient) (path : string) (expires : JsVal)
    : Script string :=
  let expires := default_to (JsNum 900) expires in
  ask (S3GetSignedUrl "getObject"
         {| SignBucket := bucket this; SignKey := path; Expires := expires |})
      (fun signed => Done (Returns signed)).

Definition isFilePublic (this : SpacesClient) (filePath : string) : Script bool :=
  ask (S3GetObjectAcl (bucket this) filePath)
      (fun Grants => Done (Returns (existsb grants_public_read Grants))).

Definition copyFile (this : SpacesClient) (sourcePath destinationPath : string)
    : Script unit :=
  then_ (isFilePublic this sourcePath) (fun isSourcePublic =>
    ask (S3CopyObject
           {| CopyBucket := bucket this;
              CopySource := ("/" ++ bucket this ++ "/" ++ sourcePath)%string;
              CopyKey := destinationPath;
              CopyACL := if isSourcePublic then "public-read" else "private" |})
        (fun copied => Done (Returns copied))).

(** A scripted S3 client for the object requests: the ACL of each key, and
    whether copies are refused. Its state counts the requests. *)
Definition object_mock (acls : string -> Settled (list Grant)) (copy : Settled unit)
    (X : Type) (r : ObjectRequest X) (n : nat) : nat * Settled X :=
  (S n,
   match r in ObjectRequest X return Settled X with
   | S3GetObjectAcl _ key => acls key
   | S3CopyObject _ => copy
   | S3GetSignedUrl _ params => inr ("signed:" ++ SignKey params)%string
   end).

Definition all_users : string := "http://acs.amazonaws.com/groups/global/AllUsers".

Definition example_acls (key : string) : Settled (list Grant) :=
  if String.eqb key "public.png" then
    inr [ {| GranteeURI := None; Permission := "FULL_CONTROL" |};
          {| GranteeURI := Some all_users; Permission := "READ" |} ]
  else if String.eqb key "private.png" then
    inr [ {| GranteeURI := None; Permission := "FULL_CONTROL" |} ]
  else inl (Rejection "NoSuchKey").

(** A gateway that refuses every listing of objects and answers the other
    requests as [mock] does. *)
Definition mock_denied (m : Mock) (X : Type) (r : Request X) (n : nat)
    : nat * Settled X :=
  match r in Request X return nat * Settled X with
  | S3ListObjectsV2 _ _ => (S n, inl (Rejection "AccessDenied"))
  | r' => mock m r' n
  end.

Definition upload_options (backoff purge : JsVal) : UploadOptions :=
  {| exponentialBackoff := backoff; purgeCache := purge; spacesOptions := [] |}.

Definition client_of (bucket : string) (token cached : option string) : SpacesClient :=
  {| endpoint := nyc3; bucket := bucket; digitalOceanAPIToken := token;
     cdnEndpointId := cached; customCdnHost := None |}.

(* ================================================================== *)
(** ** Reading a trace *)

(** The fields of the client that no method assigns to. *)
Definition same_config (a b : SpacesClient) : Prop :=
  endpoint a = endpoint b /\ bucket a = bucket b
  /\ digitalOceanAPIToken a = digitalOceanAPIToken b
  /\ customCdnHost a = customCdnHost b.

Definition uploads (t : list Event) : nat := length (List.filter is_upload t).

Definition upload_params_of (e : Event) : option UploadParams :=
  match e with
  | Ev (S3Upload params) _ => Some params
  | _ => None
  end.

(** A property of the parameter object as S3 receives it: a plain value,
    or one a library has computed from the local file. *)
Inductive ParamValue : Type :=
| Plain (v : JsVal)
| Computed (f : FromFile).

(** [o[name]] on own properties listed in the order they were defined, a
    later definition of a name replacing an earlier one. *)
Fixpoint own_property (name : string) (o : list (string * JsVal)) : option JsVal :=
  match o with
  | [] => None
  | (k, v) :: r =>
      match own_property name r with
      | Some later => Some later
      | None => if String.eqb k name then Some v else None
      end
  end.

(** The property [name] of the object the literal evaluates to: what
    [...spacesOptions] defines replaces what was written before it, also when
    its value is [undefined]. *)
Definition received (p : UploadParams) (name : string) : option ParamValue :=
  match own_property name (spread p) with
  | Some v => Some (Plain v)
  | None =>
      if String.eqb name "Bucket" then Some (Plain (JsStr (Bucket p)))
      else if String.eqb name "Body" then Some (Computed (Body p))
      else if String.eqb name "Key" then Some (Plain (JsStr (UploadKey p)))
      else if String.eqb name "ACL" then Some (Plain (ACL p))
      else if String.eqb name "ContentType" then Some (Computed (ContentType p))
      else None
  end.

(** The endpoint id, the authorization and the files of a purge request. *)
Definition purge_of (e : Event) : option (string * string * list string) :=
  match e with
  | Ev (CdnPurgeCache i authorization files) _ => Some (i, authorization, files)
  | _ => None
  end.

(** What [uploadFile] may send: the upload with its parameters, and, with an
    API token, the endpoint listing and the purge of the destination. *)
Definition sent_by_upload (this : SpacesClient) (params : UploadParams)
    (destinationPath : string) (e : Event) : Prop :=
  match e with
  | Ev (S3Upload p) _ => p = params
  | Ev (CdnListEndpoints authorization) _ =>
      authorization = bearer (digitalOceanAPIToken this)
      /\ truthy_str (digitalOceanAPIToken this) = true
  | Ev (CdnPurgeCache _ authorization files) _ =>
      authorization = bearer (digitalOceanAPIToken this)
      /\ files = [destinationPath]
      /\ truthy_str (digitalOceanAPIToken this) = true
  | _ => False
  end.

(** Whether a string holds a dot. *)
Definition has_dot (s : string) : bool :=
  existsb (Ascii.eqb ".") (list_ascii_of_string s).

(** Two outcomes of the same kind: both return, both throw the same error,
    or both are outside the model. *)
Definition same_kind {A : Type} (a b : Outcome A) : Prop :=
  match a, b with
  | Returns _, Returns _ => True
  | Throws e, Throws e' => e = e'
  | Unmodelled, Unmodelled => True
  | _, _ => False
  end.

(* ================================================================== *)
(** * Properties *)

(** ** Running programs *)

Section RunFacts.
Variable W : Type.
Variable gateway : forall X : Type, Request X -> W -> W * Settled X.

Lemma run_bindP (A B : Type) (p : Prog A) (f : A -> Prog B) (w : W) :
  run gateway (bindP p f) w =
  let '(t, w', a) := run gateway p w in
  let '(t', w'', b) := run gateway (f a) w' in
  (t ++ t', w'', b).
Proof.
  revert w. induction p as [a | X r k IH]; intros w; simpl.
  - destruct (run gateway (f a) w) as [[t' w''] b]. reflexivity.
  - destruct (gateway r w) as [w' x]. rewrite IH.
    destruct (run gateway (k x) w') as [[t w1] a].
    destruct (run gateway (f a) w1) as [[t' w''] b]. reflexivity.
Qed.

(** A call of [getCDNEndpointId], case by case. *)
Lemma run_getCDNEndpointId_no_token (this : SpacesClient) (w : W) :
  truthy_str (digitalOceanAPIToken this) = false ->
  run gateway (getCDNEndpointId this) w
  = ([], w, (this, Throws (Error_ no_api_token))).
Proof.
  intros H. unfold getCDNEndpointId, bind, get_this. simpl. rewrite H. reflexivity.
Qed.

Lemma run_getCDNEndpointId_cached (this : SpacesClient) (w : W) :
  truthy_str (digitalOceanAPIToken this) = true ->
  truthy_str (cdnEndpointId this) = true ->
  run gateway (getCDNEndpointId this) w
  = ([], w, (this, Returns (the (cdnEndpointId this)))).
Proof.
  intros H1 H2. unfold getCDNEndpointId, bind, get_this. simpl.
  rewrite H1, H2. reflexivity.
Qed.

Lemma run_getCDNEndpointId_lookup (this : SpacesClient) (w : W) :
  truthy_str (digitalOceanAPIToken this) = true ->
  truthy_str (cdnEndpointId this) = false ->
  run gateway (getCDNEndpointId this) w
  = let req := CdnListEndpoints (bearer (digitalOceanAPIToken this)) in
    let (w', x) := gateway req w in
    ([Ev req x], w',
     match x with
     | inl e => (this, Throws e)
     | inr cdnEndpoints =>
         match find (origin_matches this) cdnEndpoints with
         | None => (this, Throws (Error_ (no_cdn_endpoint (bucket this))))
         | Some e => (set_cdnEndpointId (Some (id e)) this, Returns (id e))
         end
     end).
Proof.
  intros H1 H2. unfold getCDNEndpointId, bind, get_this. simpl.
  rewrite H1, H2. simpl.
  destruct (gateway (CdnListEndpoints (bearer (digitalOceanAPIToken this))) w)
    as [w' [e | eps]]; simpl; [reflexivity |].
  destruct (find (origin_matches this) eps); reflexivity.
Qed.
End RunFacts.

(** ** CDN endpoint resolution *)

Lemma split_on_dot_head (s : string) :
  exists rest,
    URL.split_on "." (list_ascii_of_string s)
    = list_ascii_of_string (before_first_dot s) :: rest.
Proof.
  induction s as [| c r [rest IH]]; simpl.
  - exists []. reflexivity.
  - destruct (Ascii.eqb c "."); simpl.
    + eexists. reflexivity.
    + rewrite IH. eexists. reflexivity.
Qed.

(** The callback of [find] accepts exactly the endpoints whose origin's
    leading label is the bucket. *)
Lemma origin_matches_spec (this : SpacesClient) (e : CdnEndpoint) :
  origin_matches this e = true <-> before_first_dot (origin e) = bucket this.
Proof.
  unfold origin_matches, js_split.
  destruct (split_on_dot_head (origin e)) as [rest ->]. simpl.
  rewrite string_of_list_ascii_of_string, String.eqb_eq.
  split; intros H; symmetry; exact H.
Qed.

Lemma find_origin_matches_none (this : SpacesClient) (l : list CdnEndpoint) :
  (forall e, In e l -> before_first_dot (origin e) <> bucket this) ->
  find (origin_matches this) l = None.
Proof.
  intros H. destruct (find (origin_matches this) l) as [e |] eqn:F; [| reflexivity].
  apply find_some in F. destruct F as [Hin Hm].
  apply origin_matches_spec in Hm. exfalso. exact (H e Hin Hm).
Qed.

Lemma find_origin_matches_some (this : SpacesClient) (l : list CdnEndpoint) :
  (exists e, In e l /\ before_first_dot (origin e) = bucket this) ->
  exists e, find (origin_matches this) l = Some e
            /\ In e l /\ before_first_dot (origin e) = bucket this.
Proof.
  intros [e [Hin Hm]].
  destruct (find (origin_matches this) l) as [e' |] eqn:F.
  - exists e'. apply find_some in F. destruct F as [Hin' Hm'].
    apply origin_matches_spec in Hm'. auto.
  - exfalso. apply (find_none _ _ F) in Hin.
    apply origin_matches_spec in Hm. congruence.
Qed.

(** C4. [getCDNEndpointId] fails with the configuration error when no API
    token was supplied, whatever the gateway and the cache. With a token and
    no cached identifier it sends one endpoint listing; when the listing is
    answered, it returns the id of an endpoint of that list whose origin's
    leading label (the substring before the first dot) is the bucket if there
    is one, and fails with the not-found error if there is none. *)
Theorem getCDNEndpointId_contract (W : Type)
    (gateway : forall X : Type, Request X -> W -> W * Settled X)
    (this : SpacesClient) (w : W) :
  (truthy_str (digitalOceanAPIToken this) = false ->
   exists err,
     run gateway (getCDNEndpointId this) w = ([], w, (this, Throws err))
     /\ is_configuration_error err)
  /\
  (truthy_str (digitalOceanAPIToken this) = true ->
   truthy_str (cdnEndpointId this) = false ->
   forall (w' : W) (cdnEndpoints : list CdnEndpoint),
     let req := CdnListEndpoints (bearer (digitalOceanAPIToken this)) in
     gateway _ req w = (w', inr cdnEndpoints) ->
     trace_of gateway (getCDNEndpointId this) w = [Ev req (inr cdnEndpoints)]
     /\ ((exists e, In e cdnEndpoints
                    /\ before_first_dot (origin e) = bucket this) ->
         exists e, In e cdnEndpoints
                   /\ before_first_dot (origin e) = bucket this
                   /\ snd (result_of gateway (getCDNEndpointId this) w)
                      = Returns (id e))
     /\ ((forall e, In e cdnEndpoints ->
                    before_first_dot (origin e) <> bucket this) ->
         exists err,
           snd (result_of gateway (getCDNEndpointId this) w) = Throws err
           /\ is_not_found_error this err)).
Proof.
  split.
  - intros H. exists (Error_ no_api_token). split; [| reflexivity].
    apply run_getCDNEndpointId_no_token. exact H.
  - intros Htoken Hcache w' eps req Hgw.
    unfold trace_of, result_of.
    rewrite run_getCDNEndpointId_lookup by assumption.
    subst req. cbv zeta in *. rewrite Hgw. simpl. split; [reflexivity |]. split.
    + intros Hex. apply find_origin_matches_some in Hex.
      destruct Hex as [e [F [Hin Hm]]]. exists e. rewrite F. auto.
    + intros Hnone. rewrite (find_origin_matches_none this eps Hnone).
      exists (Error_ (no_cdn_endpoint (bucket this))). split; reflexivity.
Qed.

Lemma getCDNEndpointId_contract_witness :
  (exists err,
     run (mock (mock_of [] [] false)) (getCDNEndpointId (client None)) 0
     = ([], 0, (client None, Throws err))
     /\ is_configuration_error err)
  /\ (exists e,
        In e [other_endpoint; assets_endpoint "e-2"]
        /\ before_first_dot (origin e) = "assets"
        /\ snd (result_of
                  (mock (mock_of [other_endpoint; assets_endpoint "e-2"] [] false))
                  (getCDNEndpointId (client (Some "token"))) 0)
           = Returns (id e))
  /\ (exists err,
        snd (result_of (mock (mock_of [other_endpoint] [] false))
               (getCDNEndpointId (client (Some "token"))) 0)
        = Throws err
        /\ is_not_found_error (client (Some "token")) err).
Proof.
  split; [| split].
  - apply (getCDNEndpointId_contract (mock (mock_of [] [] false)) (client None) 0).
    reflexivity.
  - refine (proj1 (proj2 (proj2
      (getCDNEndpointId_contract
         (mock (mock_of [other_endpoint; assets_endpoint "e-2"] [] false))
         (client (Some "token")) 0)
      eq_refl eq_refl 1 [other_endpoint; assets_endpoint "e-2"] eq_refl)) _).
    exists (assets_endpoint "e-2"). split; [right; left; reflexivity | reflexivity].
  - refine (proj2 (proj2 (proj2
      (getCDNEndpointId_contract
         (mock (mock_of [other_endpoint] [] false))
         (client (Some "token")) 0)
      eq_refl eq_refl 1 [other_endpoint] eq_refl)) _).
    intros e [<- | []]. vm_compute. discriminate.
Defined.

Section Memoization.
Variable W : Type.
Variable gateway : forall X : Type, Request X -> W -> W * Settled X.

Lemma run_call_twice (A : Type) (m : M A) (this : SpacesClient) (w : W) :
  run gateway (call_twice m this) w =
  let '(t1, w1, (this1, o1)) := run gateway (m this) w in
  let '(t2, w2, (this2, o2)) := run gateway (m this1) w1 in
  (t1 ++ t2, w2, (this2, Returns (o1, o2))).
Proof.
  unfold call_twice, bind, settled, ret.
  rewrite !run_bindP.
  destruct (run gateway (m this) w) as [[t1 w1] [this1 o1]]. simpl.
  rewrite !run_bindP.
  destruct (run gateway (m this1) w1) as [[t2 w2] [this2 o2]]. simpl.
  rewrite !app_nil_r. reflexivity.
Qed.

(** Every call settles: two calls in a row always hand back two outcomes. *)
Lemma call_twice_returns (A : Type) (m : M A) (this : SpacesClient) (w : W) :
  exists o1 o2,
    snd (result_of gateway (call_twice m this) w) = Returns (o1, o2).
Proof.
  unfold result_of. rewrite run_call_twice.
  destruct (run gateway (m this) w) as [[t1 w1] [this1 o1]].
  destruct (run gateway (m this1) w1) as [[t2 w2] [this2 o2]].
  exists o1, o2. reflexivity.
Qed.

(** One call, summed up: it sends at most one listing, and when it returns
    an identifier that identifier is in the cache afterwards. *)
Lemma getCDNEndpointId_once (this : SpacesClient) (w : W) :
  let '(t, _, (this', o)) := run gateway (getCDNEndpointId this) w in
  length (List.filter is_list_endpoints t) <= 1
  /\ (forall i, o = Returns i ->
        truthy_str (digitalOceanAPIToken this') = true
        /\ cdnEndpointId this' = Some i)
  /\ (forall e, o = Throws e -> this' = this)
  /\ o <> Unmodelled.
Proof.
  destruct (truthy_str (digitalOceanAPIToken this)) eqn:Htoken.
  - destruct (truthy_str (cdnEndpointId this)) eqn:Hcache.
    + rewrite run_getCDNEndpointId_cached by assumption. simpl.
      repeat split; try lia; try congruence.
      destruct (cdnEndpointId this); simpl in *; congruence.
    + rewrite run_getCDNEndpointId_lookup by assumption. cbv zeta.
      destruct (gateway (CdnListEndpoints (bearer (digitalOceanAPIToken this))) w)
        as [w' [e | eps]]; simpl.
      * repeat split; try lia; congruence.
      * destruct (find (origin_matches this) eps) as [e |]; simpl;
          repeat split; try lia; congruence.
  - rewrite run_getCDNEndpointId_no_token by assumption. simpl.
    repeat split; try lia; congruence.
Qed.

(** A failed call caches nothing: the client is as it was. *)
Lemma getCDNEndpointId_failure_keeps_client (this this' : SpacesClient) (w w' : W)
    (t : list Event) (e : Error) :
  run gateway (getCDNEndpointId this) w = (t, w', (this', Throws e)) ->
  this' = this.
Proof.
  intros H. pose proof (getCDNEndpointId_once this w) as P. rewrite H in P.
  destruct P as [_ [_ [P _]]]. apply (P e). reflexivity.
Qed.

(** C3, amended. When the first of two calls in a row returns a non-empty
    identifier, the second call returns the identical identifier and at
    most one endpoint listing is sent over both calls; the identifier stays
    cached on the client. *)
Theorem getCDNEndpointId_memoized (this this' : SpacesClient) (w w' : W)
    (t : list Event) (id1 : string) (o2 : Outcome string) :
  run gateway (call_twice getCDNEndpointId this) w
  = (t, w', (this', Returns (Returns id1, o2))) ->
  id1 <> EmptyString ->
  o2 = Returns id1
  /\ length (List.filter is_list_endpoints t) <= 1
  /\ cdnEndpointId this' = Some id1.
Proof.
  intros Hrun Hid. rewrite run_call_twice in Hrun.
  pose proof (getCDNEndpointId_once this w) as P1.
  destruct (run gateway (getCDNEndpointId this) w) as [[t1 w1] [this1 o1]].
  destruct P1 as [Hlen [Hret _]].
  assert (Hc : truthy_str (cdnEndpointId this1) = true
               /\ truthy_str (digitalOceanAPIToken this1) = true
               /\ cdnEndpointId this1 = Some id1 /\ o1 = Returns id1).
  { destruct (run gateway (getCDNEndpointId this1) w1) as [[t2 w2] [this2 o2']].
    inversion Hrun; subst. destruct (Hret id1 eq_refl) as [Ht Hc].
    rewrite Hc. simpl. repeat split; auto.
    destruct (String.eqb id1 EmptyString) eqn:E; [| reflexivity].
    apply String.eqb_eq in E. contradiction. }
  destruct Hc as [Hc [Ht [Hsome Ho1]]].
  rewrite run_getCDNEndpointId_cached in Hrun by assumption.
  inversion Hrun; subst. rewrite app_nil_r, Hsome. auto.
Qed.
End Memoization.

Lemma getCDNEndpointId_memoized_witness :
  let gw := mock (mock_of [other_endpoint; assets_endpoint "e-2"] [] false) in
  let r := run gw (call_twice getCDNEndpointId (client (Some "token"))) 0 in
  snd (snd r) = Returns (Returns "e-2", Returns "e-2")
  /\ length (List.filter is_list_endpoints (fst (fst r))) <= 1
  /\ cdnEndpointId (fst (snd r)) = Some "e-2".
Proof.
  split; [reflexivity |].
  exact (proj2
    (@getCDNEndpointId_memoized nat
       (mock (mock_of [other_endpoint; assets_endpoint "e-2"] [] false))
       (client (Some "token")) _ 0 _ _ "e-2" (Returns "e-2") eq_refl
       ltac:(discriminate))).
Defined.

(** C3 as stated fails: an endpoint whose id is the empty string is returned
    but not kept by the truthiness test on the cache, so the second call
    sends a second listing. *)
Lemma getCDNEndpointId_twice_empty_id :
  let gw := mock (mock_of [assets_endpoint EmptyString] [] false) in
  let r := run gw (call_twice getCDNEndpointId (client (Some "token"))) 0 in
  snd (snd r) = Returns (Returns EmptyString, Returns EmptyString)
  /\ length (List.filter is_list_endpoints (fst (fst r))) = 2
  /\ ~ length (List.filter is_list_endpoints (fst (fst r))) <= 1.
Proof.
  vm_compute. repeat split. lia.
Qed.

(** A first call that fails is not memoized either: here no endpoint matches
    the bucket, both calls fail, and each sends its own listing. *)
Lemma getCDNEndpointId_twice_after_failure :
  let gw := mock (mock_of [other_endpoint] [] false) in
  let r := run gw (call_twice getCDNEndpointId (client (Some "token"))) 0 in
  snd (snd r)
  = Returns (Throws (Error_ "No CDN endpoint found for bucket: assets"),
             Throws (Error_ "No CDN endpoint found for bucket: assets"))
  /\ length (List.filter is_list_endpoints (fst (fst r))) = 2.
Proof.
  vm_compute. split; reflexivity.
Qed.

(** ** Upload *)

Section Upload.
Variable W : Type.
Variable gateway : forall X : Type, Request X -> W -> W * Settled X.

Lemma run_try_catch (A : Type) (m : M A) (h : Error -> M A)
    (this : SpacesClient) (w : W) :
  run gateway (try_catch m h this) w =
  let '(t, w', (this', o)) := run gateway (m this) w in
  match o with
  | Throws e =>
      let '(t2, w2, r) := run gateway (h e this') w' in (t ++ t2, w2, r)
  | _ => (t, w', (this', o))
  end.
Proof.
  unfold try_catch. rewrite run_bindP.
  destruct (run gateway (m this) w) as [[t w'] [this' o]].
  destruct o; simpl; try (rewrite app_nil_r; reflexivity).
  destruct (run gateway (h e this') w') as [[t2 w2] r]. reflexivity.
Qed.

Lemma run_bind (A B : Type) (m : M A) (f : A -> M B)
    (this : SpacesClient) (w : W) :
  run gateway (bind m f this) w =
  let '(t, w', (this', o)) := run gateway (m this) w in
  match o with
  | Returns a =>
      let '(t2, w2, r) := run gateway (f a this') w' in (t ++ t2, w2, r)
  | Throws e => (t, w', (this', Throws e))
  | Unmodelled => (t, w', (this', Unmodelled))
  end.
Proof.
  unfold bind. rewrite run_bindP.
  destruct (run gateway (m this) w) as [[t w'] [this' o]].
  destruct o; simpl; try (rewrite app_nil_r; reflexivity).
  destruct (run gateway (f a this') w') as [[t2 w2] r]. reflexivity.
Qed.

(** One attempt when no purge is asked for: the upload, then the URL. *)
Lemma run_makeUpload_no_purge (src dst : string) (permission purge : JsVal)
    (options : list (string * JsVal)) (this : SpacesClient) (w : W) :
  truthy purge = false ->
  run gateway (makeUpload src dst permission purge options this) w =
  let req := S3Upload (uploadParams this src dst permission options) in
  let (w', x) := gateway req w in
  ([Ev req x], w',
   (this, match x with
          | inl e => Throws e
          | inr _ => getCDNURL this dst
          end)).
Proof.
  intros H. unfold makeUpload, bind, get_this, await, lift, ret. simpl.
  destruct (gateway (S3Upload (uploadParams this src dst permission options)) w)
    as [w' [e | u]]; simpl; [reflexivity |].
  rewrite H. simpl. destruct (getCDNURL this dst); reflexivity.
Qed.

(** One attempt when a purge is asked for and no token is configured: the
    upload, then the configuration error. *)
Lemma run_makeUpload_no_token (src dst : string) (permission purge : JsVal)
    (options : list (string * JsVal)) (this : SpacesClient) (w : W) :
  truthy purge = true ->
  truthy_str (digitalOceanAPIToken this) = false ->
  run gateway (makeUpload src dst permission purge options this) w =
  let req := S3Upload (uploadParams this src dst permission options) in
  let (w', x) := gateway req w in
  ([Ev req x], w',
   (this, match x with
          | inl e => Throws e
          | inr _ => Throws (Error_ no_api_token)
          end)).
Proof.
  intros Hp Ht. unfold makeUpload. rewrite Hp.
  rewrite run_bind. simpl run at 1. cbv iota beta.
  rewrite run_bind. unfold await at 1. simpl run at 1.
  destruct (gateway (S3Upload (uploadParams this src dst permission options)) w)
    as [w' [e | u]]; simpl; [reflexivity |].
  rewrite !run_bind.
  rewrite run_getCDNEndpointId_no_token by assumption. reflexivity.
Qed.

(** The retry loop sends nothing of its own: when every attempt, from any
    client and any state of the gateways, sends only requests accepted by
    [good], so does the loop. *)
Lemma backOff_loop_trace (A : Type) (request : M A) (good : Event -> bool) :
  (forall this w, forallb good (trace_of gateway (request this) w) = true) ->
  forall n this w,
    forallb good (trace_of gateway (backOff_loop n request this) w) = true.
Proof.
  intros H. induction n as [| n IH]; intros this w; simpl; [apply H |].
  unfold trace_of. rewrite run_try_catch.
  pose proof (H this w) as H1. unfold trace_of in H1.
  destruct (run gateway (request this) w) as [[t w'] [this' o]]. simpl in H1.
  destruct o; simpl; try exact H1.
  pose proof (IH this' w') as H2. unfold trace_of in H2.
  destruct (run gateway (backOff_loop n request this') w') as [[t2 w2] r].
  simpl in *. rewrite forallb_app, H1, H2. reflexivity.
Qed.

(** C8. When [purgeCache] is false or absent (or any falsy value), an
    upload sends no cache-purge request, with or without an API token and
    with or without retries: every request it sends is an upload. *)
Theorem uploadFile_without_purge (src dst : string) (permission : JsVal)
    (options : UploadOptions) (this : SpacesClient) (w : W) :
  truthy (purgeCache options) = false ->
  Forall (fun e => is_purge e = false /\ is_upload e = true)
    (trace_of gateway (uploadFile src dst permission options this) w).
Proof.
  intros Hp.
  assert (Hp' : truthy (default_to (JsBool false) (purgeCache options)) = false).
  { destruct (purgeCache options); simpl in *; auto. }
  assert (Hone : forall this w,
    forallb is_upload
      (trace_of gateway
         (makeUpload src dst (default_to (JsStr "private") permission)
            (default_to (JsBool false) (purgeCache options))
            (spacesOptions options) this) w) = true).
  { intros this0 w0. unfold trace_of.
    rewrite run_makeUpload_no_purge by assumption. cbv zeta.
    destruct (gateway _ w0) as [w' x]. reflexivity. }
  assert (Hall : forallb is_upload
    (trace_of gateway (uploadFile src dst permission options this) w) = true).
  { unfold uploadFile.
    destruct (truthy (default_to (JsBool false) (exponentialBackoff options))).
    - apply backOff_loop_trace. exact Hone.
    - apply Hone. }
  rewrite forallb_forall in Hall. apply List.Forall_forall. intros e Hin.
  specialize (Hall e Hin). split; [| exact Hall].
  destruct e as [X r x]. destruct r; simpl in *; congruence.
Qed.

(** The retry loop when every attempt uploads and then fails on the missing
    token: as long as the uploads succeed, all attempts are made. *)
Lemma backOff_loop_no_token (src dst : string) (permission purge : JsVal)
    (options : list (string * JsVal)) (this : SpacesClient) :
  truthy purge = true ->
  truthy_str (digitalOceanAPIToken this) = false ->
  forall n w,
    let request := makeUpload src dst permission purge options in
    (forall e, In e (trace_of gateway (backOff_loop n request this) w) ->
               is_upload e = true -> fulfilled e = true) ->
    exists w',
      run gateway (backOff_loop n request this) w
      = (repeat (Ev (S3Upload (uploadParams this src dst permission options))
                    (inr tt)) (S n),
         w', (this, Throws (Error_ no_api_token))).
Proof.
  intros Hp Ht. induction n as [| n IH]; intros w request Hok;
    subst request; unfold trace_of in Hok; cbn [backOff_loop] in *.
  - rewrite run_makeUpload_no_token in * by assumption. cbv zeta in *.
    destruct (gateway (S3Upload (uploadParams this src dst permission options)) w)
      as [w' [e | []]].
    + specialize (Hok _ (or_introl eq_refl) eq_refl). discriminate.
    + exists w'. reflexivity.
  - rewrite run_try_catch in *.
    rewrite run_makeUpload_no_token in * by assumption. cbv zeta in *.
    destruct (gateway (S3Upload (uploadParams this src dst permission options)) w)
      as [w' [e | []]].
    + destruct (run gateway (backOff_loop n _ this) w') as [[t2 w2] r].
      simpl in Hok. specialize (Hok _ (or_introl eq_refl) eq_refl). discriminate.
    + specialize (IH w').
      destruct IH as [w'' IH].
      * intros e Hin. apply Hok.
        unfold trace_of in Hin.
        destruct (run gateway _ w') as [[t2 w2] r]. simpl in *. right. exact Hin.
      * rewrite IH. exists w''. reflexivity.
Qed.

(** C1. An upload with [purgeCache] set on a client without an API token,
    all of whose put-object requests succeed, fails with the configuration
    error. By then the object has been written and nothing is sent to undo
    it: the requests sent are exactly the successful uploads, one, or one
    per attempt under [exponentialBackoff]. *)
Theorem uploadFile_purge_without_token (src dst : string) (permission : JsVal)
    (options : UploadOptions) (this : SpacesClient) (w : W) :
  truthy (purgeCache options) = true ->
  truthy_str (digitalOceanAPIToken this) = false ->
  (forall e, In e (trace_of gateway (uploadFile src dst permission options this) w) ->
             is_upload e = true -> fulfilled e = true) ->
  exists err,
    result_of gateway (uploadFile src dst permission options this) w
    = (this, Throws err)
    /\ is_configuration_error err
    /\ trace_of gateway (uploadFile src dst permission options this) w
       = repeat
           (Ev (S3Upload (uploadParams this src dst
                            (default_to (JsStr "private") permission)
                            (spacesOptions options)))
               (inr tt))
           (if truthy (exponentialBackoff options) then numOfAttempts else 1).
Proof.
  intros Hp Ht Hok. exists (Error_ no_api_token).
  assert (Hp' : truthy (default_to (JsBool false) (purgeCache options)) = true).
  { destruct (purgeCache options); simpl in *; auto; discriminate. }
  assert (Hb : truthy (default_to (JsBool false) (exponentialBackoff options))
               = truthy (exponentialBackoff options)).
  { destruct (exponentialBackoff options); reflexivity. }
  unfold uploadFile in *. rewrite Hb in *.
  destruct (truthy (exponentialBackoff options)).
  - unfold backOff in *.
    destruct (backOff_loop_no_token src dst
                (default_to (JsStr "private") permission) _
                (spacesOptions options) this Hp' Ht (numOfAttempts - 1) w Hok)
      as [w' E].
    unfold result_of, trace_of. rewrite E. simpl. repeat split.
  - destruct (backOff_loop_no_token src dst
                (default_to (JsStr "private") permission) _
                (spacesOptions options) this Hp' Ht 0 w Hok)
      as [w' E].
    cbn [backOff_loop] in E. unfold result_of, trace_of. rewrite E.
    repeat split.
Qed.
End Upload.

Lemma uploadFile_purge_without_token_witness :
  let options := {| exponentialBackoff := JsBool true; purgeCache := JsBool true;
                    spacesOptions := [] |} in
  let call := uploadFile "logo.png" "img/logo.png" JsUndefined options (client None) in
  exists err,
    result_of (mock (mock_of [] [] false)) call 0 = (client None, Throws err)
    /\ is_configuration_error err
    /\ trace_of (mock (mock_of [] [] false)) call 0
       = repeat
           (Ev (S3Upload (uploadParams (client None) "logo.png" "img/logo.png"
                            (JsStr "private") []))
               (inr tt))
           numOfAttempts.
Proof.
  apply (@uploadFile_purge_without_token nat (mock (mock_of [] [] false))).
  - reflexivity.
  - reflexivity.
  - intros e Hin _. vm_compute in Hin.
    repeat (destruct Hin as [<- | Hin]; [reflexivity |]). destruct Hin.
Defined.

Lemma uploadFile_without_purge_witness :
  let options := {| exponentialBackoff := JsUndefined; purgeCache := JsUndefined;
                    spacesOptions := [] |} in
  Forall (fun e => is_purge e = false /\ is_upload e = true)
    (trace_of (mock (mock_of [assets_endpoint "e-2"] [] false))
       (uploadFile "logo.png" "img/logo.png" (JsStr "public") options
          (client (Some "token"))) 0).
Proof.
  apply (@uploadFile_without_purge nat
           (mock (mock_of [assets_endpoint "e-2"] [] false))).
  reflexivity.
Defined.

(** ** Delete *)

Section Delete.
Variable W : Type.
Variable gateway : forall X : Type, Request X -> W -> W * Settled X.

Lemma run_await (X : Type) (r : Request X) (this : SpacesClient) (w : W) :
  run gateway (await r this) w
  = let (w', x) := gateway r w in ([Ev r x], w', (this, awaited x)).
Proof.
  unfold await. simpl. destruct (gateway r w) as [w' [e | v]]; reflexivity.
Qed.

Lemma run_deleteObjects (T : Type) (K : HasKey T) (objects : list T)
    (this : SpacesClient) (w : W) :
  run gateway (deleteObjects objects this) w
  = let req := S3DeleteObjects (bucket this)
                 (map (fun o => {| IdKey := key_of o |}) objects) in
    let (w', x) := gateway req w in
    ([Ev req x], w', (this, awaited x)).
Proof.
  unfold deleteObjects. rewrite run_bind. simpl run at 1. cbv iota beta.
  rewrite run_await. cbv zeta. destruct (gateway _ w) as [w' x]. reflexivity.
Qed.

Lemma run_deleteFolder (folderPath : string) (this : SpacesClient) (w : W) :
  run gateway (deleteFolder folderPath this) w
  = let list := S3ListObjectsV2 (bucket this) folderPath in
    let (w1, x) := gateway list w in
    match x with
    | inl e => ([Ev list x], w1, (this, Throws e))
    | inr objects =>
        let del := S3DeleteObjects (bucket this)
                     (map (fun o => {| IdKey := Key o |}) objects) in
        let (w2, y) := gateway del w1 in
        ([Ev list x; Ev del y], w2, (this, awaited y))
    end.
Proof.
  unfold deleteFolder, listPathObjects. rewrite !run_bind.
  simpl run at 1. cbv iota beta. rewrite run_await. cbv zeta.
  destruct (gateway _ w) as [w1 [e | objects]]; simpl awaited; cbv iota beta.
  - reflexivity.
  - rewrite run_deleteObjects. cbv zeta.
    unfold key_of, S3Object_HasKey.
    destruct (gateway _ w1) as [w2 y]. reflexivity.
Qed.

(** C5, amended. When the listing of the prefix is answered with no
    object, [deleteFolder] sends exactly one delete request, with the empty
    key set, and settles as that request does: it completes without error
    exactly when the gateway accepts the empty delete. No delete request
    with a non-empty key set is sent. *)
Theorem deleteFolder_empty_listing (folderPath : string) (this : SpacesClient)
    (w w1 : W) :
  gateway (S3ListObjectsV2 (bucket this) folderPath) w = (w1, inr []) ->
  let (w2, y) := gateway (S3DeleteObjects (bucket this) []) w1 in
  run gateway (deleteFolder folderPath this) w
  = ([Ev (S3ListObjectsV2 (bucket this) folderPath) (inr []);
      Ev (S3DeleteObjects (bucket this) []) y],
     w2, (this, awaited y))
  /\ (forall e, In e (trace_of gateway (deleteFolder folderPath this) w) ->
                is_delete e = true -> delete_keys e = Some []).
Proof.
  intros Hlist. unfold trace_of. rewrite run_deleteFolder. cbv zeta.
  rewrite Hlist. simpl map.
  destruct (gateway (S3DeleteObjects (bucket this) []) w1) as [w2 y].
  split; [reflexivity |].
  intros e [<- | [<- | []]]; simpl; intros; congruence.
Qed.

(** C10. [deleteObjects] sends exactly one request, a batch delete whose
    entries are the [Key] of each input record, in order, and nothing else
    of the records. So the delete request of [deleteFolder] carries exactly
    the keys the listing returned, and [deleteFile path] is the same program
    as [deletePaths [path]]. *)
Theorem deleteObjects_keys (T : Type) (K : HasKey T) (objects : list T)
    (folderPath path : string) (this : SpacesClient) (w : W) :
  (exists x,
     trace_of gateway (deleteObjects objects this) w
     = [Ev (S3DeleteObjects (bucket this)
              (map (fun o => {| IdKey := key_of o |}) objects)) x]
     /\ map delete_keys (trace_of gateway (deleteObjects objects this) w)
        = [Some (map key_of objects)])
  /\ (forall w1 listed,
        gateway (S3ListObjectsV2 (bucket this) folderPath) w = (w1, inr listed) ->
        map delete_keys
          (List.filter is_delete (trace_of gateway (deleteFolder folderPath this) w))
        = [Some (map Key listed)])
  /\ deleteFile path = deletePaths [path].
Proof.
  split; [| split].
  - unfold trace_of. rewrite run_deleteObjects. cbv zeta.
    destruct (gateway _ w) as [w' x]. exists x. simpl.
    rewrite map_map. simpl. split; reflexivity.
  - intros w1 listed Hlist. unfold trace_of. rewrite run_deleteFolder. cbv zeta.
    rewrite Hlist. destruct (gateway _ w1) as [w2 y]. simpl.
    rewrite map_map. reflexivity.
  - reflexivity.
Qed.
End Delete.

Lemma deleteFolder_empty_listing_witness :
  run (mock (mock_of [] three_objects false)) (deleteFolder "tmp/" (client None)) 0
  = ([Ev (S3ListObjectsV2 "assets" "tmp/") (inr []);
      Ev (S3DeleteObjects "assets" []) (inr {| Deleted := []; Errors := [] |})],
     2, (client None, Returns {| Deleted := []; Errors := [] |}))
  /\ (forall e,
        In e (trace_of (mock (mock_of [] three_objects false))
                (deleteFolder "tmp/" (client None)) 0) ->
        is_delete e = true -> delete_keys e = Some []).
Proof.
  exact (@deleteFolder_empty_listing nat (mock (mock_of [] three_objects false))
           "tmp/" (client None) 0 1 eq_refl).
Defined.

(** C5 as stated fails: nothing in [deleteFolder] short-circuits an empty
    listing, so a gateway that refuses a delete without keys makes the call
    fail. *)
Lemma deleteFolder_empty_listing_rejected :
  let gw := mock (mock_of [] three_objects true) in
  gw _ (S3ListObjectsV2 "assets" "tmp/") 0 = (1, inr [])
  /\ run gw (deleteFolder "tmp/" (client None)) 0
     = ([Ev (S3ListObjectsV2 "assets" "tmp/") (inr []);
         Ev (S3DeleteObjects "assets" []) (inl (Rejection "MalformedXML"))],
        2, (client None, Throws (Rejection "MalformedXML"))).
Proof.
  split; reflexivity.
Qed.

Lemma deleteObjects_keys_witness :
  map delete_keys
    (List.filter is_delete
       (trace_of (mock (mock_of [] three_objects false))
          (deleteFolder "img/" (client None)) 0))
  = [Some ["img/b.png"; "img/a.png"]].
Proof.
  exact (proj1 (proj2
    (@deleteObjects_keys nat (mock (mock_of [] three_objects false))
       S3Object _ three_objects "img/" "img/a.png" (client None) 0))
    1 _ eq_refl).
Defined.

(** ** Array.prototype.sort *)

Section ArraySortFacts.
Variable A : Type.
Variable cmp : A -> A -> Z.

(** [a] may stand before [b]. *)
Local Abbreviation before := (fun a b : A => (cmp a b <= 0)%Z).

Hypothesis cmp_total : forall a b, (0 < cmp a b)%Z -> (cmp b a <= 0)%Z.
Hypothesis cmp_trans :
  forall a b c, (cmp a b <= 0)%Z -> (cmp b c <= 0)%Z -> (cmp a c <= 0)%Z.

Lemma sort_insert_perm (x : A) (l : list A) :
  Permutation (sort_insert cmp x l) (x :: l).
Proof.
  induction l as [| y r IH]; simpl; [reflexivity |].
  destruct (cmp x y <=? 0)%Z; [reflexivity |].
  rewrite IH. apply perm_swap.
Qed.

Lemma Array_sort_perm (l : list A) : Permutation (Array_sort cmp l) l.
Proof.
  induction l as [| x r IH]; simpl; [reflexivity |].
  rewrite sort_insert_perm. apply perm_skip. exact IH.
Qed.

Lemma sort_insert_sorted (x : A) (l : list A) :
  StronglySorted before l -> StronglySorted before (sort_insert cmp x l).
Proof.
  induction 1 as [| y r Hs IH Hy]; simpl.
  - constructor; constructor.
  - destruct (cmp x y <=? 0)%Z eqn:E.
    + apply Z.leb_le in E. constructor.
      * constructor; assumption.
      * constructor; [exact E |].
        eapply List.Forall_impl; [| exact Hy].
        intros z Hz. simpl in *. eapply cmp_trans; eassumption.
    + apply Z.leb_gt in E. constructor; [exact IH |].
      apply (Permutation_Forall (Permutation_sym (sort_insert_perm x r))).
      constructor; [apply cmp_total; exact E | exact Hy].
Qed.

Lemma Array_sort_sorted (l : list A) : StronglySorted before (Array_sort cmp l).
Proof.
  induction l as [| x r IH]; simpl; [constructor |].
  apply sort_insert_sorted. exact IH.
Qed.

(** Stability: elements the comparator does not tell apart keep the order
    they had in the input. *)
Variable tied : A -> bool.
Hypothesis tied_before :
  forall a b, tied a = true -> tied b = true -> (cmp a b <= 0)%Z.

Lemma sort_insert_tied (x : A) (l : list A) :
  List.filter tied (sort_insert cmp x l)
  = if tied x then x :: List.filter tied l else List.filter tied l.
Proof.
  induction l as [| y r IH]; simpl.
  - destruct (tied x); reflexivity.
  - destruct (cmp x y <=? 0)%Z eqn:E; simpl.
    + destruct (tied x); reflexivity.
    + rewrite IH. apply Z.leb_gt in E.
      destruct (tied x) eqn:Tx; [| reflexivity].
      destruct (tied y) eqn:Ty; [| reflexivity].
      pose proof (tied_before Tx Ty) as Hb. lia.
Qed.

Lemma Array_sort_stable (l : list A) :
  List.filter tied (Array_sort cmp l) = List.filter tied l.
Proof.
  induction l as [| x r IH]; simpl; [reflexivity |].
  rewrite sort_insert_tied, IH. reflexivity.
Qed.
End ArraySortFacts.

(** ** Listing *)

Lemma StronglySorted_weaken (A : Type) (R S : A -> A -> Prop) (l : list A) :
  (forall a b, R a b -> S a b) -> StronglySorted R l -> StronglySorted S l.
Proof.
  intros H. induction 1 as [| x r Hs IH Hx]; constructor; [exact IH |].
  eapply List.Forall_impl; [| exact Hx]. intros b. apply H.
Qed.

(** [sortFilesByDate] by ascending date unless [sortByDate] is ['DESC']. *)
Lemma sortFilesByDate_perm (files : list FileEntry) (sortByDate : JsVal) :
  Permutation (sortFilesByDate files sortByDate) files.
Proof.
  apply Array_sort_perm.
Qed.

Lemma sortFilesByDate_ascending (files : list FileEntry) (sortByDate : JsVal) :
  sortByDate <> JsStr "DESC" ->
  StronglySorted (fun a b => (lastModified a <= lastModified b)%Z)
    (sortFilesByDate files sortByDate).
Proof.
  intros H. unfold sortFilesByDate.
  assert (E : strict_eq_str (default_to (JsStr SortOrder.ASC) sortByDate)
                SortOrder.DESC = false).
  { destruct sortByDate as [| | b | z | s]; try reflexivity. simpl.
    apply String.eqb_neq. intros ->. apply H. reflexivity. }
  rewrite E.
  eapply StronglySorted_weaken;
    [| apply Array_sort_sorted; intros; lia ].
  intros a b Hab. simpl in Hab. lia.
Qed.

Lemma sortFilesByDate_descending (files : list FileEntry) :
  StronglySorted (fun a b => (lastModified b <= lastModified a)%Z)
    (sortFilesByDate files (JsStr "DESC")).
Proof.
  unfold sortFilesByDate. simpl.
  eapply StronglySorted_weaken;
    [| apply Array_sort_sorted; intros; lia ].
  intros a b Hab. simpl in Hab. lia.
Qed.

Lemma sortFilesByDate_stable (files : list FileEntry) (sortByDate : JsVal) (t : Z) :
  List.filter (fun f => (lastModified f =? t)%Z) (sortFilesByDate files sortByDate)
  = List.filter (fun f => (lastModified f =? t)%Z) files.
Proof.
  unfold sortFilesByDate. apply Array_sort_stable.
  intros a b Ha Hb. apply Z.eqb_eq in Ha, Hb.
  destruct (strict_eq_str _ _); lia.
Qed.

(** Sorted by a key and stable determines the arrangement: two lists sorted
    by [key] that list the elements of each key in the same order are equal.
    So every stable sort by [key] returns what [Array_sort] returns. *)
Lemma stable_sorted_unique (A : Type) (key : A -> Z) (l1 l2 : list A) :
  StronglySorted (fun a b => (key a <= key b)%Z) l1 ->
  StronglySorted (fun a b => (key a <= key b)%Z) l2 ->
  (forall t, List.filter (fun a => (key a =? t)%Z) l1
             = List.filter (fun a => (key a =? t)%Z) l2) ->
  l1 = l2.
Proof.
  intros S1. revert l2. induction S1 as [| x r1 S1 IH Hx]; intros l2 S2 Heq.
  - destruct l2 as [| y r2]; [reflexivity |].
    specialize (Heq (key y)). simpl in Heq. rewrite Z.eqb_refl in Heq.
    discriminate.
  - destruct l2 as [| y r2].
    + specialize (Heq (key x)). simpl in Heq. rewrite Z.eqb_refl in Heq.
      discriminate.
    + inversion S2 as [| y' r2' S2' Hy]; subst.
      assert (Hyx : (key y <= key x)%Z).
      { assert (Hin : In x (y :: r2)).
        { apply (proj1 (List.filter_In (fun a => (key a =? key x)%Z) x (y :: r2))).
          rewrite <- Heq. simpl. rewrite Z.eqb_refl. left. reflexivity. }
        destruct Hin as [-> | Hin]; [lia |].
        rewrite List.Forall_forall in Hy. apply Hy. exact Hin. }
      assert (Hxy : (key x <= key y)%Z).
      { assert (Hin : In y (x :: r1)).
        { apply (proj1 (List.filter_In (fun a => (key a =? key y)%Z) y (x :: r1))).
          rewrite Heq. simpl. rewrite Z.eqb_refl. left. reflexivity. }
        destruct Hin as [-> | Hin]; [lia |].
        rewrite List.Forall_forall in Hx. apply Hx. exact Hin. }
      assert (Hk : key y = key x) by lia.
      pose proof (Heq (key x)) as Hhead. simpl in Hhead.
      rewrite Hk, Z.eqb_refl in Hhead. inversion Hhead; subst y.
      f_equal. apply IH; [exact S2' |].
      intros t. destruct (Z.eqb (key x) t) eqn:E.
      * apply Z.eqb_eq in E. subst t. assumption.
      * specialize (Heq t). simpl in Heq. rewrite E in Heq. exact Heq.
Qed.

(** Whatever stable sort the engine runs, [sortFilesByDate] is its result:
    an arrangement that is in ascending order of date and keeps the entries of
    each date in their order is the one [sortFilesByDate] returns. *)
Lemma sortFilesByDate_unique (files result : list FileEntry) (sortByDate : JsVal) :
  sortByDate <> JsStr "DESC" ->
  StronglySorted (fun a b => (lastModified a <= lastModified b)%Z) result ->
  (forall t, List.filter (fun f => (lastModified f =? t)%Z) result
             = List.filter (fun f => (lastModified f =? t)%Z) files) ->
  result = sortFilesByDate files sortByDate.
Proof.
  intros Hs Hsorted Hstable.
  apply (stable_sorted_unique lastModified); [exact Hsorted | |].
  - apply sortFilesByDate_ascending. exact Hs.
  - intros t. rewrite sortFilesByDate_stable. apply Hstable.
Qed.

(** The entries are built one per record, in the order of the listing, each
    with the date of its record. *)
Lemma map_outcome_length (A B : Type) (f : A -> Outcome B) (l : list A) (r : list B) :
  map_outcome f l = Returns r -> length r = length l.
Proof.
  revert r. induction l as [| x l IH]; simpl; intros r H.
  - inversion H. reflexivity.
  - destruct (f x); try discriminate.
    destruct (map_outcome f l); try discriminate.
    inversion H. simpl. rewrite (IH _ eq_refl). reflexivity.
Qed.

Lemma map_outcome_returns (A B : Type) (f : A -> Outcome B) (g : A -> B) (l : list A) :
  (forall x, In x l -> f x = Returns (g x)) ->
  map_outcome f l = Returns (map g l).
Proof.
  induction l as [| x l IH]; simpl; intros H; [reflexivity |].
  rewrite (H x (or_introl eq_refl)), IH; [reflexivity |].
  intros y Hy. apply H. right. exact Hy.
Qed.

Lemma toFileEntry_dates (this : SpacesClient) (pathOnly : JsVal)
    (objects : list S3Object) (files : list FileEntry) :
  map_outcome (toFileEntry this pathOnly) objects = Returns files ->
  map lastModified files = map LastModified objects.
Proof.
  revert files. induction objects as [| o l IH]; simpl; intros files H.
  - inversion H. reflexivity.
  - unfold toFileEntry at 1 in H.
    destruct (if truthy pathOnly then _ else _); try discriminate.
    destruct (map_outcome _ l); try discriminate.
    inversion H. simpl. rewrite (IH _ eq_refl). reflexivity.
Qed.

Section Listing.
Variable W : Type.
Variable gateway : forall X : Type, Request X -> W -> W * Settled X.

Lemma run_listPathFiles (path : string) (options : ListOptions)
    (this : SpacesClient) (w : W) :
  run gateway (listPathFiles path options this) w
  = let list := S3ListObjectsV2 (bucket this) path in
    let (w', x) := gateway list w in
    ([Ev list x], w',
     (this,
      match x with
      | inl e => Throws e
      | inr objects =>
          match map_outcome
                  (toFileEntry this (default_to (JsBool false) (pathOnly options)))
                  objects with
          | Returns files => Returns (sortFilesByDate files (sortByDate options))
          | Throws e => Throws e
          | Unmodelled => Unmodelled
          end
      end)).
Proof.
  unfold listPathFiles, listPathObjects. rewrite !run_bind.
  simpl run at 1. cbv iota beta. rewrite run_await. cbv zeta.
  destruct (gateway _ w) as [w' [e | objects]]; simpl awaited; cbv iota beta.
  - reflexivity.
  - rewrite !run_bind. simpl run at 1. cbv iota beta.
    rewrite run_bind. unfold lift at 1. simpl run at 1. cbv iota beta.
    destruct (map_outcome _ objects); reflexivity.
Qed.

(** C2. When the listing is answered and the entries are built,
    [listPathFiles] returns them rearranged: in non-decreasing order of
    [lastModified] when [sortByDate] is anything but ['DESC'] (absent
    included), in non-increasing order when it is ['DESC'], and in both cases
    with the entries of any one timestamp in the order the gateway returned
    them. *)
Theorem listPathFiles_sorted (path : string) (options : ListOptions)
    (this : SpacesClient) (w w' : W) (objects : list S3Object)
    (files : list FileEntry) :
  gateway (S3ListObjectsV2 (bucket this) path) w = (w', inr objects) ->
  map_outcome (toFileEntry this (default_to (JsBool false) (pathOnly options)))
    objects = Returns files ->
  exists result,
    snd (result_of gateway (listPathFiles path options this) w) = Returns result
    /\ Permutation result files
    /\ map lastModified files = map LastModified objects
    /\ (sortByDate options <> JsStr "DESC" ->
        StronglySorted (fun a b => (lastModified a <= lastModified b)%Z) result)
    /\ (sortByDate options = JsStr "DESC" ->
        StronglySorted (fun a b => (lastModified b <= lastModified a)%Z) result)
    /\ (forall t,
          List.filter (fun f => (lastModified f =? t)%Z) result
          = List.filter (fun f => (lastModified f =? t)%Z) files).
Proof.
  intros Hlist Hfiles. unfold result_of. rewrite run_listPathFiles. cbv zeta.
  rewrite Hlist, Hfiles. simpl.
  exists (sortFilesByDate files (sortByDate options)).
  split; [reflexivity |]. split; [apply sortFilesByDate_perm |].
  split; [eapply toFileEntry_dates; eassumption |].
  split; [apply sortFilesByDate_ascending |].
  split; [intros ->; apply sortFilesByDate_descending |].
  intros t. apply sortFilesByDate_stable.
Qed.

(** C9. When the listing is answered, [listPathFiles] with [pathOnly] true
    returns one entry per record whose [url] is the record's raw key, and
    with [pathOnly] false or absent one entry per record whose [url] is
    [getCDNURL] of the key (where [getCDNURL] returns one for every key); each
    entry carries the [lastModified] of its record. *)
Theorem listPathFiles_locators (path : string) (options : ListOptions)
    (this : SpacesClient) (w w' : W) (objects : list S3Object) :
  gateway (S3ListObjectsV2 (bucket this) path) w = (w', inr objects) ->
  (truthy (pathOnly options) = true ->
   exists result,
     snd (result_of gateway (listPathFiles path options this) w) = Returns result
     /\ Permutation result
          (map (fun o => {| url := Key o; lastModified := LastModified o |}) objects))
  /\
  (truthy (pathOnly options) = false ->
   forall cdnURL : string -> string,
     (forall o, In o objects -> getCDNURL this (Key o) = Returns (cdnURL (Key o))) ->
     exists result,
       snd (result_of gateway (listPathFiles path options this) w) = Returns result
       /\ Permutation result
            (map (fun o => {| url := cdnURL (Key o); lastModified := LastModified o |})
               objects)).
Proof.
  intros Hlist.
  assert (Hd : truthy (default_to (JsBool false) (pathOnly options))
               = truthy (pathOnly options)).
  { destruct (pathOnly options); reflexivity. }
  unfold result_of. rewrite run_listPathFiles. cbv zeta. rewrite Hlist. simpl.
  split.
  - intros Hp.
    rewrite (map_outcome_returns _
               (fun o => {| url := Key o; lastModified := LastModified o |})).
    + eexists. split; [reflexivity | apply sortFilesByDate_perm].
    + intros o _. unfold toFileEntry. rewrite Hd, Hp. reflexivity.
  - intros Hp cdnURL Hcdn.
    rewrite (map_outcome_returns _
               (fun o => {| url := cdnURL (Key o); lastModified := LastModified o |})).
    + eexists. split; [reflexivity | apply sortFilesByDate_perm].
    + intros o Ho. unfold toFileEntry. rewrite Hd, Hp, (Hcdn o Ho). reflexivity.
Qed.
End Listing.

Lemma listPathFiles_sorted_witness :
  let gw := mock (mock_of [] three_objects false) in
  let options := list_options (JsStr "DESC") (JsBool true) in
  exists result,
    snd (result_of gw (listPathFiles EmptyString options (client None)) 0)
    = Returns result
    /\ Permutation result three_entries
    /\ map lastModified three_entries = map LastModified three_objects
    /\ (sortByDate options <> JsStr "DESC" ->
        StronglySorted (fun a b => (lastModified a <= lastModified b)%Z) result)
    /\ (sortByDate options = JsStr "DESC" ->
        StronglySorted (fun a b => (lastModified b <= lastModified a)%Z) result)
    /\ (forall t,
          List.filter (fun f => (lastModified f =? t)%Z) result
          = List.filter (fun f => (lastModified f =? t)%Z) three_entries).
Proof.
  exact (@listPathFiles_sorted nat (mock (mock_of [] three_objects false))
           EmptyString (list_options (JsStr "DESC") (JsBool true)) (client None)
           0 1 three_objects three_entries eq_refl eq_refl).
Defined.

(** The example listing, sorted both ways: the two entries of the same date
    keep the order of the listing. *)
Example listPathFiles_example :
  let gw := mock (mock_of [] three_objects false) in
  snd (result_of gw (listPathFiles EmptyString
                       (list_options JsUndefined (JsBool true)) (client None)) 0)
  = Returns [ {| url := "img/a.png"; lastModified := 1700000001000 |};
              {| url := "img/b.png"; lastModified := 1700000002000 |};
              {| url := "doc/c.pdf"; lastModified := 1700000002000 |} ]
  /\ snd (result_of gw (listPathFiles EmptyString
                          (list_options (JsStr "DESC") (JsBool true)) (client None)) 0)
     = Returns [ {| url := "img/b.png"; lastModified := 1700000002000 |};
                 {| url := "doc/c.pdf"; lastModified := 1700000002000 |};
                 {| url := "img/a.png"; lastModified := 1700000001000 |} ]
  /\ snd (result_of gw (listPathFiles "img/"
                          (list_options (JsStr "desc") JsUndefined) (client None)) 0)
     = Returns [ {| url := "https://cdn.digitaloceanspaces/img/a.png";
                    lastModified := 1700000001000 |};
                 {| url := "https://cdn.digitaloceanspaces/img/b.png";
                    lastModified := 1700000002000 |} ].
Proof.
  vm_compute. repeat split.
Qed.

Lemma listPathFiles_locators_witness :
  let gw := mock (mock_of [] three_objects false) in
  (exists result,
     snd (result_of gw (listPathFiles EmptyString
                          (list_options JsUndefined (JsBool true)) (client None)) 0)
     = Returns result
     /\ Permutation result three_entries)
  /\
  (exists result,
     snd (result_of gw (listPathFiles EmptyString
                          (list_options JsUndefined JsUndefined) (client None)) 0)
     = Returns result
     /\ Permutation result
          (map (fun o => {| url := ("https://cdn.digitaloceanspaces/" ++ Key o)%string;
                            lastModified := LastModified o |})
             three_objects)).
Proof.
  split.
  - exact (proj1 (@listPathFiles_locators nat (mock (mock_of [] three_objects false))
                    EmptyString (list_options JsUndefined (JsBool true)) (client None)
                    0 1 three_objects eq_refl) eq_refl).
  - refine (proj2 (@listPathFiles_locators nat (mock (mock_of [] three_objects false))
                     EmptyString (list_options JsUndefined JsUndefined) (client None)
                     0 1 three_objects eq_refl) eq_refl
              (fun k => ("https://cdn.digitaloceanspaces/" ++ k)%string) _).
    intros o [<- | [<- | [<- | []]]]; vm_compute; reflexivity.
Defined.

(** ** Download *)

Module DownloadFacts.
Import Download.

Section Handlers.
Variable filePathToSave : string.

Lemma step_write_under_way (s : State) (ev : Event) :
  is_write ev = true -> under_way filePathToSave s ->
  under_way filePathToSave (step filePathToSave s ev).
Proof.
  intros Hw [Hp [Hfd Hfile]]. destruct ev; try discriminate; simpl; rewrite Hfd.
  - repeat split; assumption.
  - repeat split; simpl; try assumption.
    rewrite lookup_alter_eq. destruct Hfile as [c ->]. eexists. reflexivity.
Qed.

Lemma writes_under_way (evs : list Event) (s : State) :
  forallb is_write evs = true -> under_way filePathToSave s ->
  under_way filePathToSave (fold_left (step filePathToSave) evs s).
Proof.
  revert s. induction evs as [| ev evs IH]; intros s Hw Hs; simpl; [exact Hs |].
  simpl in Hw. apply andb_prop in Hw. destruct Hw as [Hev Hw].
  apply IH; [exact Hw |]. apply step_write_under_way; assumption.
Qed.

(** Once the write stream has opened the file, the download is under way. *)
Lemma opened_under_way (evs : list Event) (s : State) :
  forallb is_write evs = true -> existsb is_open evs = true ->
  promise s = Pending -> fd s = NotOpened ->
  under_way filePathToSave (fold_left (step filePathToSave) evs s).
Proof.
  revert s. induction evs as [| ev evs IH]; intros s Hw Ho Hp Hfd; simpl in *;
    [discriminate |].
  apply andb_prop in Hw. destruct Hw as [Hev Hw].
  destruct ev; try discriminate; simpl.
  - rewrite Hfd. apply writes_under_way; [exact Hw |].
    repeat split; simpl; try assumption.
    rewrite lookup_insert_eq. eexists. reflexivity.
  - rewrite Hfd. apply IH; assumption.
Qed.

(** The handler of ['error'] on a download under way: the file is removed and
    the promise rejected with the error it was given. *)
Lemma on_error_under_way (error : Error) (s : State) :
  under_way filePathToSave s ->
  cleaned_up filePathToSave error (on_error filePathToSave error s).
Proof.
  intros [Hp [Hfd [c Hfile]]]. unfold on_error, unlinkSync. rewrite Hfile. simpl.
  rewrite Hp, Hfd. repeat split. apply lookup_delete_eq.
Qed.

(** Nothing the runtime delivers afterwards brings the file back or changes
    how the promise settled. *)
Lemma step_cleaned_up (error : Error) (s : State) (ev : Event) :
  cleaned_up filePathToSave error s ->
  cleaned_up filePathToSave error (step filePathToSave s ev).
Proof.
  intros [Hp [Hfd Hfile]]. destruct ev; simpl.
  - rewrite Hfd. repeat split; assumption.
  - rewrite Hfd. repeat split; assumption.
  - unfold on_error, unlinkSync. rewrite Hfile. repeat split; assumption.
  - repeat split; assumption.
  - unfold on_finish. repeat split; simpl; try assumption. rewrite Hp. reflexivity.
Qed.

Lemma steps_cleaned_up (error : Error) (evs : list Event) (s : State) :
  cleaned_up filePathToSave error s ->
  cleaned_up filePathToSave error (fold_left (step filePathToSave) evs s).
Proof.
  revert s. induction evs as [| ev evs IH]; intros s Hs; simpl; [exact Hs |].
  apply IH. apply step_cleaned_up. exact Hs.
Qed.
End Handlers.

(** What the ['error'] handler achieves. When the request emits an error
    while a download is under way (the directory step did not fail, the write
    stream has opened the local file, chunks may have been written), the
    handler removes the local file and rejects the promise with that very
    error; whatever is delivered afterwards, the file stays absent and the
    promise stays rejected with that error. *)
Theorem downloadFile_read_error (filePathToRead filePathToSave : string)
    (createDirIfNotExists : JsVal) (mkdir : Settled unit)
    (files : gmap string (list ascii)) (before after : list Event) (error : Error) :
  (truthy (default_to (JsBool true) createDirIfNotExists) = true -> mkdir = inr tt) ->
  forallb is_write before = true ->
  existsb is_open before = true ->
  let s := downloadFile filePathToRead filePathToSave createDirIfNotExists mkdir
             files (before ++ RequestError error :: after) in
  fs s !! filePathToSave = None /\ promise s = Rejected error.
Proof.
  intros Hmk Hw Ho s.
  assert (E : s = fold_left (step filePathToSave)
                    (before ++ RequestError error :: after)
                    {| fs := files; fd := NotOpened; promise := Pending;
                       uncaught := [] |}).
  { subst s. unfold downloadFile.
    destruct (truthy (default_to (JsBool true) createDirIfNotExists)).
    - rewrite (Hmk eq_refl). reflexivity.
    - reflexivity. }
  rewrite E, fold_left_app. simpl.
  assert (C : cleaned_up filePathToSave error
                (fold_left (step filePathToSave) after
                   (on_error filePathToSave error
                      (fold_left (step filePathToSave) before
                         {| fs := files; fd := NotOpened; promise := Pending;
                            uncaught := [] |})))).
  { apply steps_cleaned_up, on_error_under_way, opened_under_way;
      try assumption; reflexivity. }
  destruct C as [Hp [_ Hfile]]. split; assumption.
Qed.

Lemma downloadFile_read_error_witness :
  let s := downloadFile "img/a.png" "/tmp/a.png" JsUndefined (inr tt) ∅
             ([WriteOpened; Chunk (URL.chars "abc")]
              ++ RequestError (Rejection "ECONNRESET")
                 :: [Chunk (URL.chars "def"); WriteFinish]) in
  fs s !! "/tmp/a.png" = None /\ promise s = Rejected (Rejection "ECONNRESET").
Proof.
  apply (@downloadFile_read_error "img/a.png" "/tmp/a.png" JsUndefined (inr tt) ∅
           [WriteOpened; Chunk (URL.chars "abc")]
           [Chunk (URL.chars "def"); WriteFinish] (Rejection "ECONNRESET"));
    reflexivity.
Defined.

(** A download that meets no error: the file holds the chunks and the promise
    is fulfilled with the local path. *)
Example downloadFile_finishes :
  let s := downloadFile "img/a.png" "/tmp/a.png" JsUndefined (inr tt) ∅
             [WriteOpened; Chunk (URL.chars "abc"); Chunk (URL.chars "def");
              WriteFinish] in
  fs s !! "/tmp/a.png" = Some (URL.chars "abcdef")
  /\ promise s = Fulfilled "/tmp/a.png".
Proof.
  split; reflexivity.
Qed.

(** C7. The claim fails on the code: the cleanup is attached to the request,
    not to the read stream. When the stream that is piped into the file emits
    an error in the middle of a download, no handler of [downloadFile] runs:
    the chunk written so far stays in the local file and the promise is not
    rejected; and when the write stream then finishes, the call is fulfilled
    with the path of the partial file. *)
Theorem downloadFile_stream_error :
  let failed := [WriteOpened; Chunk (URL.chars "abc");
                 StreamError (Rejection "ECONNRESET")] in
  let s := downloadFile "img/a.png" "/tmp/a.png" JsUndefined (inr tt) ∅ failed in
  let s' := downloadFile "img/a.png" "/tmp/a.png" JsUndefined (inr tt) ∅
              (failed ++ [WriteFinish]) in
  (fs s !! "/tmp/a.png" = Some (URL.chars "abc") /\ promise s = Pending)
  /\ (fs s' !! "/tmp/a.png" = Some (URL.chars "abc")
      /\ promise s' = Fulfilled "/tmp/a.png")
  /\ uncaught s' = [].
Proof.
  repeat split; reflexivity.
Qed.

(** The order of the events is the runtime's. An error delivered before the
    write stream has opened its file finds nothing to unlink: [unlinkSync]
    throws out of the handler, [reject] is not reached, and the file that the
    stream then opens stays. *)
Example downloadFile_error_before_open :
  let s := downloadFile "img/a.png" "/tmp/a.png" JsUndefined (inr tt) ∅
             [RequestError (Rejection "ConfigError"); WriteOpened] in
  fs s !! "/tmp/a.png" = Some []
  /\ promise s = Pending
  /\ uncaught s = [enoent].
Proof.
  repeat split; reflexivity.
Qed.
End DownloadFacts.

(** ** URLs *)

Module URLFacts.
Import URL.










(** Strings and their characters. *)
Lemma chars_app (a b : string) : chars (a ++ b) = chars a ++ chars b.
Proof.
  unfold chars. induction a as [| c a IH]; simpl; [reflexivity |].
  rewrite IH. reflexivity.
Qed.












End URLFacts.


Lemma getURL_chars (this : SpacesClient) (path : string) :
  URL.chars (getURL this path)
  = URL.chars "https://" ++ URL.chars (bucket this ++ "." ++ endpoint this)
    ++ "/"%char :: URL.chars path.
Proof.
  unfold getURL. rewrite !URLFacts.chars_app. rewrite <- !app_assoc. reflexivity.
Qed.





(** More of what the URL class does to a public URL: dot segments are
    resolved, a backslash becomes a slash, a custom host is lower-cased, a
    custom host that is no host is ignored, and a port of the endpoint is
    kept under the new host. *)
Example getCDNURL_normalises :
  getCDNURL (client None) "a/../b.txt" = Returns "https://cdn.digitaloceanspaces/b.txt"
  /\ getCDNURL (client None) "a\b.txt"
     = Returns "https://cdn.digitaloceanspaces/a/b.txt"
  /\ getCDNURL (client_at nyc3 (Some "CDN.Example.com")) "a.txt"
     = Returns "https://cdn.example.com/a.txt"
  /\ getCDNURL (client_at nyc3 (Some "my cdn")) "a.txt"
     = Returns "https://assets.nyc3.digitaloceanspaces.com/a.txt"
  /\ getCDNURL (client_at "localhost:9000" None) "a.txt"
     = Returns "https://cdn.digitaloceanspaces:9000/a.txt"
  /\ getCDNURL (client_at "bad host" None) "a.txt" = Throws (TypeError_ "Invalid URL").
Proof.
  vm_compute. repeat split.
Qed.

(* ================================================================== *)
(** * More of the client *)

(** ** Upload, in general *)

Lemma same_config_refl (a : SpacesClient) : same_config a a.
Proof.
  repeat split.
Qed.

Lemma same_config_trans (a b c : SpacesClient) :
  same_config a b -> same_config b c -> same_config a c.
Proof.
  intros [H1 [H2 [H3 H4]]] [K1 [K2 [K3 K4]]].
  repeat split; congruence.
Qed.

Lemma same_config_set (v : option string) (a : SpacesClient) :
  same_config a (set_cdnEndpointId v a).
Proof.
  repeat split.
Qed.

(** [getCDNURL] reads the endpoint, the bucket and the custom host only. *)
Lemma getCDNURL_same_config (a b : SpacesClient) (path : string) :
  same_config a b -> getCDNURL a path = getCDNURL b path.
Proof.
  intros [H1 [H2 [_ H4]]]. unfold getCDNURL, getURL. rewrite H1, H2, H4.
  reflexivity.
Qed.

Lemma uploadParams_same_config (a b : SpacesClient) (src dst : string)
    (permission : JsVal) (options : list (string * JsVal)) :
  same_config a b ->
  uploadParams a src dst permission options = uploadParams b src dst permission options.
Proof.
  intros [_ [H2 _]]. unfold uploadParams. rewrite H2. reflexivity.
Qed.

Section UploadInGeneral.
Variable W : Type.
Variable gateway : forall X : Type, Request X -> W -> W * Settled X.

(** One attempt, whatever is configured and however the gateways answer. *)
Lemma run_makeUpload (src dst : string) (permission purge : JsVal)
    (options : list (string * JsVal)) (this : SpacesClient) (w : W) :
  run gateway (makeUpload src dst permission purge options this) w =
  let up := S3Upload (uploadParams this src dst permission options) in
  let (w1, x) := gateway up w in
  match x with
  | inl e => ([Ev up x], w1, (this, Throws e))
  | inr _ =>
      if truthy purge then
        let '(t2, w2, (this2, o)) := run gateway (getCDNEndpointId this) w1 in
        match o with
        | Returns i =>
            let pg := CdnPurgeCache i (bearer (digitalOceanAPIToken this2)) [dst] in
            let (w3, y) := gateway pg w2 in
            (Ev up x :: t2 ++ [Ev pg y], w3,
             (this2, match y with
                     | inl e => Throws e
                     | inr _ => getCDNURL this2 dst
                     end))
        | Throws e => (Ev up x :: t2, w2, (this2, Throws e))
        | Unmodelled => (Ev up x :: t2, w2, (this2, Unmodelled))
        end
      else ([Ev up x], w1, (this, getCDNURL this dst))
  end.
Proof.
  destruct (truthy purge) eqn:Hp.
  - unfold makeUpload. rewrite Hp.
    rewrite run_bind. simpl run at 1. cbv iota beta.
    rewrite run_bind. rewrite run_await. cbv zeta.
    destruct (gateway (S3Upload (uploadParams this src dst permission options)) w)
      as [w1 [e | u]]; simpl awaited; cbv iota beta; [reflexivity |].
    rewrite !run_bind.
    destruct (run gateway (getCDNEndpointId this) w1) as [[t2 w2] [this2 o]].
    destruct o as [i | e |]; cbv iota beta; [| reflexivity | reflexivity].
    rewrite run_bind. simpl run at 1. cbv iota beta.
    rewrite run_await.
    destruct (gateway (CdnPurgeCache i (bearer (digitalOceanAPIToken this2)) [dst]) w2)
      as [w3 [e | u']]; simpl awaited; cbv iota beta.
    + reflexivity.
    + rewrite run_bind. simpl run at 1. cbv iota beta.
      unfold lift. simpl run.
      destruct (getCDNURL this2 dst); simpl; rewrite ?app_nil_r; reflexivity.
  - rewrite run_makeUpload_no_purge by assumption. cbv zeta.
    destruct (gateway _ w) as [w1 [e | u]]; reflexivity.
Qed.
End UploadInGeneral.


Section UploadRequests.
Variable W : Type.
Variable gateway : forall X : Type, Request X -> W -> W * Settled X.

(** Endpoint resolution sends listings only, under the token, and assigns to
    the cached identifier only. *)
Lemma getCDNEndpointId_frame (this : SpacesClient) (w : W) :
  let '(t, _, (this', o)) := run gateway (getCDNEndpointId this) w in
  same_config this this'
  /\ (forall e, In e t ->
        exists x, e = Ev (CdnListEndpoints (bearer (digitalOceanAPIToken this))) x)
  /\ (t <> [] -> truthy_str (digitalOceanAPIToken this) = true)
  /\ (forall i, o = Returns i -> truthy_str (digitalOceanAPIToken this) = true)
  /\ o <> Unmodelled.
Proof.
  destruct (truthy_str (digitalOceanAPIToken this)) eqn:Htoken.
  - destruct (truthy_str (cdnEndpointId this)) eqn:Hcache.
    + rewrite run_getCDNEndpointId_cached by assumption.
      repeat split; try apply same_config_refl; try congruence.
      intros e [].
    + rewrite run_getCDNEndpointId_lookup by assumption. cbv zeta.
      destruct (gateway (CdnListEndpoints (bearer (digitalOceanAPIToken this))) w)
        as [w' [e | eps]].
      * repeat split; try congruence.
        intros e' [<- | []]. eexists. reflexivity.
      * destruct (find (origin_matches this) eps) as [ep |];
          repeat split; try congruence;
          intros e' [<- | []]; eexists; reflexivity.
  - rewrite run_getCDNEndpointId_no_token by assumption.
    repeat split; try congruence. intros e [].
Qed.

(** What one attempt of an upload sends and leaves, started on a client
    [this] that has the configuration of [this0]. *)
Lemma makeUpload_attempt (src dst : string) (permission purge : JsVal)
    (options : list (string * JsVal)) (this0 this : SpacesClient) (w : W) :
  same_config this0 this ->
  let '(t, _, (this', o)) :=
    run gateway (makeUpload src dst permission purge options this) w in
  same_config this0 this'
  /\ Forall (sent_by_upload this0 (uploadParams this0 src dst permission options) dst) t
  /\ uploads t = 1
  /\ (forall u, o = Returns u ->
        getCDNURL this0 dst = Returns u
        /\ exists e, In e t /\ is_upload e = true /\ fulfilled e = true)
  /\ (truthy purge = false -> this' = this).
Proof.
  intros Hc. rewrite run_makeUpload. cbv zeta.
  rewrite <- (uploadParams_same_config src dst permission options Hc).
  destruct (gateway (S3Upload (uploadParams this0 src dst permission options)) w)
    as [w1 [e | u]].
  - split; [exact Hc |]. split; [| split; [| split]].
    + constructor; [reflexivity | constructor].
    + reflexivity.
    + discriminate.
    + reflexivity.
  - destruct (truthy purge) eqn:Hp.
    + pose proof (getCDNEndpointId_frame this w1) as F.
      destruct (run gateway (getCDNEndpointId this) w1) as [[t2 w2] [this2 o]].
      destruct F as [Hc2 [Hev [Hne [Hret Hun]]]].
      assert (Hc02 : same_config this0 this2) by (eapply same_config_trans; eassumption).
      assert (Htok : digitalOceanAPIToken this = digitalOceanAPIToken this0).
      { destruct Hc as [_ [_ [-> _]]]. reflexivity. }
      assert (Ht2 : Forall (sent_by_upload this0
                              (uploadParams this0 src dst permission options) dst) t2).
      { apply List.Forall_forall. intros e He. destruct (Hev e He) as [x ->].
        simpl. rewrite <- Htok. split; [reflexivity |].
        apply Hne. intros ->. destruct He. }
      assert (Hu2 : List.filter is_upload t2 = []).
      { clear -Hev. induction t2 as [| e t IH]; [reflexivity |].
        simpl. destruct (Hev e (or_introl eq_refl)) as [x ->]. simpl.
        apply IH. intros e' He'. apply Hev. right. exact He'. }
      destruct o as [i | e |]; [| | congruence].
      * destruct (gateway (CdnPurgeCache i (bearer (digitalOceanAPIToken this2)) [dst]) w2)
          as [w3 y].
        assert (Htok2 : digitalOceanAPIToken this2 = digitalOceanAPIToken this0).
        { destruct Hc02 as [_ [_ [-> _]]]. reflexivity. }
        split; [exact Hc02 |]. split; [| split; [| split]].
        -- constructor; [reflexivity |]. apply Forall_app. split; [exact Ht2 |].
           constructor; [| constructor]. simpl. rewrite Htok2.
           repeat split. rewrite <- Htok. apply (Hret i). reflexivity.
        -- unfold uploads. simpl. rewrite List.filter_app, Hu2. reflexivity.
        -- intros url Hy. destruct y as [e | u']; [discriminate |].
           split; [rewrite (getCDNURL_same_config dst Hc02); exact Hy |].
           eexists. split; [left; reflexivity | split; reflexivity].
        -- discriminate.
      * split; [exact Hc02 |]. split; [| split; [| split]].
        -- constructor; [reflexivity | exact Ht2].
        -- unfold uploads. simpl. rewrite Hu2. reflexivity.
        -- discriminate.
        -- discriminate.
    + split; [exact Hc |]. split; [| split; [| split]].
      * constructor; [reflexivity | constructor].
      * reflexivity.
      * intros url Hy.
        split; [rewrite (getCDNURL_same_config dst Hc); exact Hy |].
        eexists. split; [left; reflexivity | split; reflexivity].
      * reflexivity.
Qed.

(** The retry loop keeps what every attempt keeps: [R] holds of the loop when
    it holds of each attempt and of a failed attempt followed by more. *)
Lemma backOff_loop_rule (A : Type) (request : M A) (I : SpacesClient -> Prop)
    (R : list Event -> SpacesClient -> Outcome A -> Prop) :
  (forall this w, I this ->
     let '(t, _, (this', o)) := run gateway (request this) w in
     I this' /\ R t this' o) ->
  (forall t1 this1 e t2 this2 o,
     R t1 this1 (Throws e) -> R t2 this2 o -> R (t1 ++ t2) this2 o) ->
  forall n this w, I this ->
    let '(t, _, (this', o)) := run gateway (backOff_loop n request this) w in
    I this' /\ R t this' o.
Proof.
  intros Hone Hext. induction n as [| n IH]; intros this w Hi; cbn [backOff_loop].
  - apply Hone. exact Hi.
  - rewrite run_try_catch. pose proof (Hone this w Hi) as H1.
    destruct (run gateway (request this) w) as [[t w'] [this' o]].
    destruct H1 as [Hi' Hr]. destruct o as [a | e |]; try (split; assumption).
    pose proof (IH this' w' Hi') as H2.
    destruct (run gateway (backOff_loop n request this') w') as [[t2 w2] [this2 o2]].
    destruct H2 as [Hi2 Hr2]. split; [exact Hi2 |].
    eapply Hext; eassumption.
Qed.

(** The retry loop makes between one and [S n] attempts, and all of them
    when it ends in an error. *)
Lemma backOff_loop_uploads (A : Type) (request : M A) (I : SpacesClient -> Prop) :
  (forall this w, I this ->
     let '(t, _, (this', _)) := run gateway (request this) w in
     I this' /\ uploads t = 1) ->
  forall n this w, I this ->
    let '(t, _, (_, o)) := run gateway (backOff_loop n request this) w in
    1 <= uploads t <= S n /\ (forall e, o = Throws e -> uploads t = S n).
Proof.
  intros Hone. induction n as [| n IH]; intros this w Hi; cbn [backOff_loop].
  - pose proof (Hone this w Hi) as H1.
    destruct (run gateway (request this) w) as [[t w'] [this' o]].
    destruct H1 as [_ ->]. split; [lia | reflexivity].
  - rewrite run_try_catch. pose proof (Hone this w Hi) as H1.
    destruct (run gateway (request this) w) as [[t w'] [this' o]].
    destruct H1 as [Hi' Hu]. destruct o as [a | e |].
    + rewrite Hu. split; [lia | discriminate].
    + pose proof (IH this' w' Hi') as H2.
      destruct (run gateway (backOff_loop n request this') w') as [[t2 w2] [this2 o2]].
      unfold uploads in *. rewrite List.filter_app, length_app, Hu.
      destruct H2 as [Hb Hall]. split; [lia |].
      intros e' He'. rewrite (Hall e' He'). reflexivity.
    + rewrite Hu. split; [lia | discriminate].
Qed.

(** X1. Whatever the options and however the gateways answer, [uploadFile]
    sends nothing but uploads of the one parameter object built from its
    arguments and, under a truthy API token only, endpoint listings and purges
    of exactly the destination key, all authorized by that token. It changes
    no field of the client but the cached endpoint identifier, and not even
    that one when [purgeCache] is falsy. In the parameter object a
    passthrough option replaces the property of its name, [Bucket], [Key]
    and [ACL] included; where no passthrough option has the name, [Bucket] is
    the client's bucket, [Key] the destination key, and [ACL] is
    [public-read] when the permission is ['public'], [private] when it is
    absent, and the permission as given otherwise. *)
Theorem uploadFile_requests (src dst : string) (permission : JsVal)
    (options : UploadOptions) (this : SpacesClient) (w : W) :
  let '(t, _, (this', _)) :=
    run gateway (uploadFile src dst permission options this) w in
  let params := uploadParams this src dst (default_to (JsStr "private") permission)
                  (spacesOptions options) in
  Forall (sent_by_upload this params dst) t
  /\ same_config this this'
  /\ (truthy (purgeCache options) = false -> this' = this)
  /\ (forall name v, own_property name (spacesOptions options) = Some v ->
        received params name = Some (Plain v))
  /\ (own_property "Bucket" (spacesOptions options) = None ->
      received params "Bucket" = Some (Plain (JsStr (bucket this))))
  /\ (own_property "Key" (spacesOptions options) = None ->
      received params "Key" = Some (Plain (JsStr dst)))
  /\ (own_property "ACL" (spacesOptions options) = None ->
      received params "ACL"
      = Some (Plain (if strict_eq_str permission "public" then JsStr "public-read"
                     else default_to (JsStr "private") permission))).
Proof.
  assert (Hacl :
    (forall name v, own_property name (spacesOptions options) = Some v ->
       received (uploadParams this src dst (default_to (JsStr "private") permission)
                   (spacesOptions options)) name = Some (Plain v))
    /\ (own_property "Bucket" (spacesOptions options) = None ->
        received (uploadParams this src dst (default_to (JsStr "private") permission)
                    (spacesOptions options)) "Bucket"
        = Some (Plain (JsStr (bucket this))))
    /\ (own_property "Key" (spacesOptions options) = None ->
        received (uploadParams this src dst (default_to (JsStr "private") permission)
                    (spacesOptions options)) "Key"
        = Some (Plain (JsStr dst)))
    /\ (own_property "ACL" (spacesOptions options) = None ->
        received (uploadParams this src dst (default_to (JsStr "private") permission)
                    (spacesOptions options)) "ACL"
        = Some (Plain (if strict_eq_str permission "public" then JsStr "public-read"
                       else default_to (JsStr "private") permission)))).
  { unfold received. cbn [spread uploadParams].
    split; [intros name v ->; reflexivity |].
    split; [intros ->; reflexivity |].
    split; [intros ->; reflexivity |].
    intros ->. destruct permission; reflexivity. }
  set (purge := default_to (JsBool false) (purgeCache options)).
  set (request := makeUpload src dst (default_to (JsStr "private") permission) purge
                    (spacesOptions options)).
  assert (Hp : truthy purge = truthy (purgeCache options)).
  { subst purge. destruct (purgeCache options); reflexivity. }
  pose (I := fun c : SpacesClient =>
               same_config this c /\ (truthy purge = false -> c = this)).
  pose (R := fun (t : list Event) (c : SpacesClient) (o : Outcome string) =>
               Forall (sent_by_upload this
                         (uploadParams this src dst
                            (default_to (JsStr "private") permission)
                            (spacesOptions options)) dst) t).
  assert (Hone : forall c w0, I c ->
            let '(t, _, (c', o)) := run gateway (request c) w0 in
            I c' /\ R t c' o).
  { intros c w0 [Hc Hsame]. subst request.
    pose proof (makeUpload_attempt src dst (default_to (JsStr "private") permission)
                  purge (spacesOptions options) w0 Hc) as H.
    destruct (run gateway (makeUpload _ _ _ _ _ c) w0) as [[t w'] [c' o]].
    destruct H as [Hc' [Hs [_ [_ Hk]]]]. split; [| exact Hs].
    split; [exact Hc' |]. intros Hf. rewrite (Hk Hf). apply Hsame. exact Hf. }
  assert (Hext : forall t1 (c1 : SpacesClient) (e : Error) t2 (c2 : SpacesClient)
                        (o : Outcome string),
            R t1 c1 (Throws e) -> R t2 c2 o -> R (t1 ++ t2) c2 o).
  { intros t1 c1 e t2 c2 o H1 H2. apply Forall_app. split; assumption. }
  assert (Hi : I this) by (split; [apply same_config_refl | reflexivity]).
  unfold uploadFile. fold purge. fold request.
  destruct (truthy (default_to (JsBool false) (exponentialBackoff options))).
  - pose proof (backOff_loop_rule request I R Hone Hext (numOfAttempts - 1) this w Hi)
      as H. unfold backOff.
    destruct (run gateway (backOff_loop _ request this) w) as [[t w'] [c' o]].
    destruct H as [[Hc Hk] Hr]. rewrite <- Hp. cbv zeta.
    split; [exact Hr | split; [exact Hc | split; [exact Hk | exact Hacl]]].
  - pose proof (Hone this w Hi) as H.
    destruct (run gateway (request this) w) as [[t w'] [c' o]].
    destruct H as [[Hc Hk] Hr]. rewrite <- Hp. cbv zeta.
    split; [exact Hr | split; [exact Hc | split; [exact Hk | exact Hacl]]].
Qed.

(** A passthrough option named [ACL] or [Bucket] is what S3 receives, whatever
    the permission and the client say. *)
Example uploadParams_overridden :
  let params := uploadParams (client None) "logo.png" "img/logo.png" (JsStr "private")
                  [("ACL", JsStr "public-read"); ("Bucket", JsStr "other");
                   ("CacheControl", JsStr "no-cache")] in
  received params "ACL" = Some (Plain (JsStr "public-read"))
  /\ received params "Bucket" = Some (Plain (JsStr "other"))
  /\ received params "Key" = Some (Plain (JsStr "img/logo.png"))
  /\ received params "CacheControl" = Some (Plain (JsStr "no-cache")).
Proof.
  repeat split; reflexivity.
Qed.

(** X2. [uploadFile] uploads the file once without [exponentialBackoff], and
    between once and [numOfAttempts] (10) times with it, once per attempt.
    When the call ends in an error under [exponentialBackoff], every one of
    the 10 attempts was made: the file was sent 10 times. *)
Theorem uploadFile_attempts (src dst : string) (permission : JsVal)
    (options : UploadOptions) (this : SpacesClient) (w : W) :
  let '(t, _, (_, o)) :=
    run gateway (uploadFile src dst permission options this) w in
  let most := if truthy (exponentialBackoff options) then numOfAttempts else 1 in
  1 <= uploads t <= most
  /\ (forall e, o = Throws e -> uploads t = most).
Proof.
  set (request := makeUpload src dst (default_to (JsStr "private") permission)
                    (default_to (JsBool false) (purgeCache options))
                    (spacesOptions options)).
  assert (Hb : truthy (default_to (JsBool false) (exponentialBackoff options))
               = truthy (exponentialBackoff options)).
  { destruct (exponentialBackoff options); reflexivity. }
  assert (Hone : forall c w0, True ->
            let '(t, _, (c', _)) := run gateway (request c) w0 in
            True /\ uploads t = 1).
  { intros c w0 _. subst request.
    pose proof (makeUpload_attempt src dst (default_to (JsStr "private") permission)
                  (default_to (JsBool false) (purgeCache options))
                  (spacesOptions options) w0 (same_config_refl c)) as H.
    destruct (run gateway (makeUpload _ _ _ _ _ c) w0) as [[t w'] [c' o]].
    destruct H as [_ [_ [Hu _]]]. split; [exact I | exact Hu]. }
  unfold uploadFile. fold request. rewrite Hb.
  destruct (truthy (exponentialBackoff options)).
  - unfold backOff.
    apply (backOff_loop_uploads request (fun _ => True) Hone (numOfAttempts - 1) this w I).
  - pose proof (Hone this w I) as H.
    destruct (run gateway (request this) w) as [[t w'] [c' o]].
    destruct H as [_ ->]. cbv zeta. split; [lia | reflexivity].
Qed.

(** X3. Whenever [uploadFile] returns, with or without retries and purge,
    what it returns is [getCDNURL] of the destination key, and an upload of
    the call was fulfilled. *)
Theorem uploadFile_returns (src dst : string) (permission : JsVal)
    (options : UploadOptions) (this : SpacesClient) (w : W) :
  let '(t, _, (_, o)) :=
    run gateway (uploadFile src dst permission options this) w in
  forall u, o = Returns u ->
    getCDNURL this dst = Returns u
    /\ exists e, In e t /\ is_upload e = true /\ fulfilled e = true.
Proof.
  set (request := makeUpload src dst (default_to (JsStr "private") permission)
                    (default_to (JsBool false) (purgeCache options))
                    (spacesOptions options)).
  pose (R := fun (t : list Event) (c : SpacesClient) (o : Outcome string) =>
               forall u, o = Returns u ->
                 getCDNURL this dst = Returns u
                 /\ exists e, In e t /\ is_upload e = true /\ fulfilled e = true).
  assert (Hone : forall c w0, same_config this c ->
            let '(t, _, (c', o)) := run gateway (request c) w0 in
            same_config this c' /\ R t c' o).
  { intros c w0 Hc. subst request.
    pose proof (makeUpload_attempt src dst (default_to (JsStr "private") permission)
                  (default_to (JsBool false) (purgeCache options))
                  (spacesOptions options) w0 Hc) as H.
    destruct (run gateway (makeUpload _ _ _ _ _ c) w0) as [[t w'] [c' o]].
    destruct H as [Hc' [_ [_ [Hr _]]]]. split; [exact Hc' | exact Hr]. }
  assert (Hext : forall t1 (c1 : SpacesClient) (e : Error) t2 (c2 : SpacesClient)
                        (o : Outcome string),
            R t1 c1 (Throws e) -> R t2 c2 o -> R (t1 ++ t2) c2 o).
  { intros t1 c1 e t2 c2 o _ H2 u Hu. destruct (H2 u Hu) as [Hg [ev [Hin Hev]]].
    split; [exact Hg |]. exists ev. split; [| exact Hev].
    apply in_or_app. right. exact Hin. }
  unfold uploadFile. fold request.
  destruct (truthy (default_to (JsBool false) (exponentialBackoff options))).
  - pose proof (backOff_loop_rule request (same_config this) R Hone Hext
                  (numOfAttempts - 1) this w (same_config_refl this)) as H.
    unfold backOff.
    destruct (run gateway (backOff_loop _ request this) w) as [[t w'] [c' o]].
    destruct H as [_ Hr]. exact Hr.
  - pose proof (Hone this w (same_config_refl this)) as H.
    destruct (run gateway (request this) w) as [[t w'] [c' o]].
    destruct H as [_ Hr]. exact Hr.
Qed.
End UploadRequests.

Lemma uploadFile_requests_witness :
  let gw := mock (mock_of [assets_endpoint "e-2"] [] false) in
  let this := client (Some "token") in
  let options := {| exponentialBackoff := JsUndefined; purgeCache := JsBool true;
                    spacesOptions := [("ACL", JsStr "public-read")] |} in
  let '(t, _, (this', _)) :=
    run gw (uploadFile "logo.png" "img/logo.png" JsUndefined options this) 0 in
  let params := uploadParams this "logo.png" "img/logo.png"
                  (default_to (JsStr "private") JsUndefined) (spacesOptions options) in
  Forall (sent_by_upload this params "img/logo.png") t
  /\ same_config this this'
  /\ (truthy (purgeCache options) = false -> this' = this)
  /\ (forall name v, own_property name (spacesOptions options) = Some v ->
        received params name = Some (Plain v))
  /\ (own_property "Bucket" (spacesOptions options) = None ->
      received params "Bucket" = Some (Plain (JsStr (bucket this))))
  /\ (own_property "Key" (spacesOptions options) = None ->
      received params "Key" = Some (Plain (JsStr "img/logo.png")))
  /\ (own_property "ACL" (spacesOptions options) = None ->
      received params "ACL"
      = Some (Plain (if strict_eq_str JsUndefined "public" then JsStr "public-read"
                     else default_to (JsStr "private") JsUndefined))).
Proof.
  exact (@uploadFile_requests nat (mock (mock_of [assets_endpoint "e-2"] [] false))
           "logo.png" "img/logo.png" JsUndefined
           {| exponentialBackoff := JsUndefined; purgeCache := JsBool true;
              spacesOptions := [("ACL", JsStr "public-read")] |}
           (client (Some "token")) 0).
Defined.

Section UploadAndPurge.
Variable W : Type.
Variable gateway : forall X : Type, Request X -> W -> W * Settled X.

(** X4. An upload with [purgeCache], without retries, on a client with a
    token and no cached endpoint: once the upload is fulfilled and the
    listing answered with a matching endpoint, the requests are the upload,
    the listing and the purge of exactly the destination key under the
    matching endpoint's id, in this order. The id is cached, and the call
    ends as the purge does: in the CDN URL when it is fulfilled, in the
    purge's error when it is rejected, the object staying uploaded. *)
Theorem uploadFile_purge_sequence (src dst : string) (permission : JsVal)
    (options : UploadOptions) (this : SpacesClient) (w w1 w2 : W)
    (cdnEndpoints : list CdnEndpoint) (found : CdnEndpoint) :
  truthy (exponentialBackoff options) = false ->
  truthy (purgeCache options) = true ->
  truthy_str (digitalOceanAPIToken this) = true ->
  truthy_str (cdnEndpointId this) = false ->
  let up := S3Upload (uploadParams this src dst (default_to (JsStr "private") permission)
                        (spacesOptions options)) in
  let list := CdnListEndpoints (bearer (digitalOceanAPIToken this)) in
  let purge := CdnPurgeCache (id found) (bearer (digitalOceanAPIToken this)) [dst] in
  gateway up w = (w1, inr tt) ->
  gateway list w1 = (w2, inr cdnEndpoints) ->
  find (origin_matches this) cdnEndpoints = Some found ->
  run gateway (uploadFile src dst permission options this) w
  = (let (w3, y) := gateway purge w2 in
     ([Ev up (inr tt); Ev list (inr cdnEndpoints); Ev purge y], w3,
      (set_cdnEndpointId (Some (id found)) this,
       match y with
       | inl e => Throws e
       | inr _ => getCDNURL this dst
       end))).
Proof.
  intros Hb Hp Ht Hc up list purge Hup Hlist Hfind.
  assert (Hb' : truthy (default_to (JsBool false) (exponentialBackoff options)) = false).
  { destruct (exponentialBackoff options); simpl in *; auto. }
  assert (Hp' : truthy (default_to (JsBool false) (purgeCache options)) = true).
  { destruct (purgeCache options); simpl in *; auto; discriminate. }
  unfold uploadFile. rewrite Hb'. rewrite run_makeUpload. cbv zeta.
  fold up. rewrite Hup, Hp'.
  rewrite run_getCDNEndpointId_lookup by assumption. cbv zeta.
  fold list. rewrite Hlist, Hfind. simpl digitalOceanAPIToken. fold purge.
  destruct (gateway purge w2) as [w3 y]. reflexivity.
Qed.


Lemma find_first (A : Type) (f : A -> bool) (before after : list A) (x : A) :
  (forall y, In y before -> f y = false) -> f x = true ->
  find f (before ++ x :: after) = Some x.
Proof.
  intros Hb Hx. induction before as [| y l IH]; simpl.
  - rewrite Hx. reflexivity.
  - rewrite (Hb y (or_introl eq_refl)). apply IH.
    intros z Hz. apply Hb. right. exact Hz.
Qed.

(** X6. Of several endpoints whose origin's leading label is the bucket,
    [getCDNEndpointId] picks the first in the order of the listing: the
    endpoints after it are not looked at. *)
Theorem getCDNEndpointId_first_match (this : SpacesClient) (w w' : W)
    (before after : list CdnEndpoint) (found : CdnEndpoint) :
  truthy_str (digitalOceanAPIToken this) = true ->
  truthy_str (cdnEndpointId this) = false ->
  gateway (CdnListEndpoints (bearer (digitalOceanAPIToken this))) w
  = (w', inr (before ++ found :: after)) ->
  (forall e, In e before -> before_first_dot (origin e) <> bucket this) ->
  before_first_dot (origin found) = bucket this ->
  run gateway (getCDNEndpointId this) w
  = ([Ev (CdnListEndpoints (bearer (digitalOceanAPIToken this)))
         (inr (before ++ found :: after))],
     w', (set_cdnEndpointId (Some (id found)) this, Returns (id found))).
Proof.
  intros Ht Hc Hgw Hbefore Hfound.
  rewrite run_getCDNEndpointId_lookup by assumption. cbv zeta. rewrite Hgw.
  rewrite find_first; [reflexivity | |].
  - intros e He. destruct (origin_matches this e) eqn:E; [| reflexivity].
    apply origin_matches_spec in E. exfalso. exact (Hbefore e He E).
  - apply origin_matches_spec. exact Hfound.
Qed.

Lemma before_first_dot_no_dot (s : string) : has_dot (before_first_dot s) = false.
Proof.
  unfold has_dot. induction s as [| c r IH]; [reflexivity |].
  cbn [before_first_dot]. destruct (Ascii.eqb c ".") eqn:E; [reflexivity |].
  change (Ascii.eqb "." c
          || existsb (Ascii.eqb ".") (list_ascii_of_string (before_first_dot r))
          = false).
  rewrite Ascii.eqb_sym, E, IH. reflexivity.
Qed.

(** X7. A bucket whose name holds a dot is never resolved: the leading
    label of an origin holds no dot, so no endpoint matches, and every lookup
    that is answered ends in the not-found error. *)
Theorem getCDNEndpointId_dotted_bucket (this : SpacesClient) (w w' : W)
    (cdnEndpoints : list CdnEndpoint) :
  has_dot (bucket this) = true ->
  truthy_str (digitalOceanAPIToken this) = true ->
  truthy_str (cdnEndpointId this) = false ->
  gateway (CdnListEndpoints (bearer (digitalOceanAPIToken this))) w
  = (w', inr cdnEndpoints) ->
  run gateway (getCDNEndpointId this) w
  = ([Ev (CdnListEndpoints (bearer (digitalOceanAPIToken this))) (inr cdnEndpoints)],
     w', (this, Throws (Error_ (no_cdn_endpoint (bucket this))))).
Proof.
  intros Hdot Ht Hc Hgw.
  rewrite run_getCDNEndpointId_lookup by assumption. cbv zeta. rewrite Hgw.
  rewrite find_origin_matches_none; [reflexivity |].
  intros e _ Heq. pose proof (before_first_dot_no_dot (origin e)) as H.
  rewrite Heq, Hdot in H. discriminate.
Qed.
End UploadAndPurge.

Lemma uploadFile_purge_sequence_witness :
  let gw := mock (mock_of [other_endpoint; assets_endpoint "e-2"] [] false) in
  let this := client (Some "token") in
  run gw (uploadFile "logo.png" "img/logo.png" (JsStr "public")
            (upload_options JsUndefined (JsBool true)) this) 0
  = ([Ev (S3Upload (uploadParams this "logo.png" "img/logo.png" (JsStr "public") []))
         (inr tt);
      Ev (CdnListEndpoints "Bearer token")
         (inr [other_endpoint; assets_endpoint "e-2"]);
      Ev (CdnPurgeCache "e-2" "Bearer token" ["img/logo.png"]) (inr tt)],
     3,
     (set_cdnEndpointId (Some "e-2") this,
      Returns "https://cdn.digitaloceanspaces/img/logo.png")).
Proof.
  exact (@uploadFile_purge_sequence nat
           (mock (mock_of [other_endpoint; assets_endpoint "e-2"] [] false))
           "logo.png" "img/logo.png" (JsStr "public")
           (upload_options JsUndefined (JsBool true)) (client (Some "token"))
           0 1 2 [other_endpoint; assets_endpoint "e-2"] (assets_endpoint "e-2")
           eq_refl eq_refl eq_refl eq_refl eq_refl eq_refl eq_refl).
Defined.


Lemma getCDNEndpointId_first_match_witness :
  let listed := [other_endpoint; assets_endpoint "e-2"; assets_endpoint "e-3"] in
  run (mock (mock_of listed [] false)) (getCDNEndpointId (client (Some "token"))) 0
  = ([Ev (CdnListEndpoints "Bearer token") (inr listed)], 1,
     (set_cdnEndpointId (Some "e-2") (client (Some "token")), Returns "e-2")).
Proof.
  refine (@getCDNEndpointId_first_match nat
            (mock (mock_of [other_endpoint; assets_endpoint "e-2"; assets_endpoint "e-3"]
                     [] false))
            (client (Some "token")) 0 1 [other_endpoint] [assets_endpoint "e-3"]
            (assets_endpoint "e-2") eq_refl eq_refl eq_refl _ eq_refl).
  intros e [<- | []]. vm_compute. discriminate.
Defined.

Lemma getCDNEndpointId_dotted_bucket_witness :
  let this := client_of "my.assets" (Some "token") None in
  let listed := [ {| id := "e-4"; origin := "my.assets.nyc3.digitaloceanspaces.com";
                     ttl := 3600 |} ] in
  run (mock (mock_of listed [] false)) (getCDNEndpointId this) 0
  = ([Ev (CdnListEndpoints "Bearer token") (inr listed)], 1,
     (this, Throws (Error_ "No CDN endpoint found for bucket: my.assets"))).
Proof.
  exact (@getCDNEndpointId_dotted_bucket nat
           (mock (mock_of [ {| id := "e-4";
                               origin := "my.assets.nyc3.digitaloceanspaces.com";
                               ttl := 3600 |} ] [] false))
           (client_of "my.assets" (Some "token") None) 0 1 _
           eq_refl eq_refl eq_refl eq_refl).
Defined.

(** ** Listing and delete, in general *)

Section ListAndDelete.
Variable W : Type.
Variable gateway : forall X : Type, Request X -> W -> W * Settled X.

(** X8. When the listing of the prefix is rejected, [deleteFolder] fails
    with that error and sends nothing else: no delete request leaves. *)
Theorem deleteFolder_listing_rejected (folderPath : string) (this : SpacesClient)
    (w w1 : W) (e : Error) :
  gateway (S3ListObjectsV2 (bucket this) folderPath) w = (w1, inl e) ->
  run gateway (deleteFolder folderPath this) w
  = ([Ev (S3ListObjectsV2 (bucket this) folderPath) (inl e)], w1, (this, Throws e)).
Proof.
  intros Hlist. rewrite run_deleteFolder. cbv zeta. rewrite Hlist. reflexivity.
Qed.

(** X9. [listPathFiles] sends exactly one request, the listing of the
    client's bucket under the prefix, whatever that listing holds: no second
    page is asked for. The client is left as it was. A rejected listing is
    thrown on as it is, and a returned result has one entry per record of the
    listing. *)
Theorem listPathFiles_one_request (path : string) (options : ListOptions)
    (this : SpacesClient) (w : W) :
  let list := S3ListObjectsV2 (bucket this) path in
  let (w', x) := gateway list w in
  let '(t, w'', (this', o)) := run gateway (listPathFiles path options this) w in
  t = [Ev list x] /\ w'' = w' /\ this' = this
  /\ match x with
     | inl e => o = Throws e
     | inr objects => forall result, o = Returns result -> length result = length objects
     end.
Proof.
  cbv zeta. rewrite run_listPathFiles. cbv zeta.
  destruct (gateway (S3ListObjectsV2 (bucket this) path) w) as [w' [e | objects]].
  - repeat split.
  - repeat split. intros result Hr.
    destruct (map_outcome _ objects) as [files | |] eqn:E; try discriminate.
    inversion Hr; subst.
    rewrite (Permutation_length (sortFilesByDate_perm files (sortByDate options))).
    eapply map_outcome_length. exact E.
Qed.

(** X10. [deletePaths] sends exactly one batch delete to the client's bucket
    whose keys are the given paths, in their order and with their repetitions,
    and ends as that request does, the gateway's error thrown on unchanged. *)
Theorem deletePaths_keys (paths : list string) (this : SpacesClient) (w : W) :
  let '(t, _, (this', o)) := run gateway (deletePaths paths this) w in
  exists objects x,
    t = [Ev (S3DeleteObjects (bucket this) objects) x]
    /\ map IdKey objects = paths
    /\ o = awaited x
    /\ this' = this.
Proof.
  unfold deletePaths. rewrite run_deleteObjects. cbv zeta.
  destruct (gateway _ w) as [w' x].
  eexists. exists x. split; [reflexivity |]. split; [| split; reflexivity].
  unfold key_of, ObjectIdentifier_HasKey. rewrite !map_map. simpl.
  apply map_id.
Qed.
End ListAndDelete.

Lemma deleteFolder_listing_rejected_witness :
  run (mock_denied (mock_of [] three_objects false)) (deleteFolder "img/" (client None)) 0
  = ([Ev (S3ListObjectsV2 "assets" "img/") (inl (Rejection "AccessDenied"))], 1,
     (client None, Throws (Rejection "AccessDenied"))).
Proof.
  exact (@deleteFolder_listing_rejected nat (mock_denied (mock_of [] three_objects false))
           "img/" (client None) 0 1 (Rejection "AccessDenied") eq_refl).
Defined.

(** ** Sorting, in general *)

(** Sorting a sorted array leaves it as it is. *)
Lemma Array_sort_of_sorted (A : Type) (cmp : A -> A -> Z) (l : list A) :
  StronglySorted (fun a b => (cmp a b <= 0)%Z) l -> Array_sort cmp l = l.
Proof.
  induction 1 as [| x r Hs IH Hx]; simpl; [reflexivity |].
  rewrite IH. destruct r as [| y r']; [reflexivity |].
  simpl. inversion Hx as [| ? ? Hxy _]; subst.
  apply Z.leb_le in Hxy. rewrite Hxy. reflexivity.
Qed.

(** X11. Sorting twice is sorting once: [sortFilesByDate] leaves its own
    result as it is, for every value of [sortByDate]. *)
Theorem sortFilesByDate_idempotent (files : list FileEntry) (sortByDate : JsVal) :
  sortFilesByDate (sortFilesByDate files sortByDate) sortByDate
  = sortFilesByDate files sortByDate.
Proof.
  unfold sortFilesByDate at 1. apply Array_sort_of_sorted.
  unfold sortFilesByDate. apply Array_sort_sorted.
  - intros a b. destruct (strict_eq_str _ _); lia.
  - intros a b c. destruct (strict_eq_str _ _); lia.
Qed.

Lemma StronglySorted_snoc (A : Type) (R : A -> A -> Prop) (l : list A) (x : A) :
  StronglySorted R l -> Forall (fun y => R y x) l -> StronglySorted R (l ++ [x]).
Proof.
  induction 1 as [| y r Hs IH Hy]; intros Hall; simpl.
  - constructor; constructor.
  - inversion Hall; subst. constructor; [apply IH; assumption |].
    apply Forall_app. split; [exact Hy |]. constructor; [assumption | constructor].
Qed.

Lemma StronglySorted_rev (A : Type) (R : A -> A -> Prop) (l : list A) :
  StronglySorted R l -> StronglySorted (fun a b => R b a) (rev l).
Proof.
  induction 1 as [| x r Hs IH Hx]; simpl; [constructor |].
  apply StronglySorted_snoc; [exact IH |].
  apply List.Forall_forall. intros y Hy. rewrite List.Forall_forall in Hx.
  apply Hx. apply in_rev. exact Hy.
Qed.

Lemma filter_rev_list (A : Type) (f : A -> bool) (l : list A) :
  List.filter f (rev l) = rev (List.filter f l).
Proof.
  induction l as [| x r IH]; simpl; [reflexivity |].
  rewrite List.filter_app, IH. simpl. destruct (f x); simpl.
  - reflexivity.
  - apply app_nil_r.
Qed.

(** Among entries of distinct dates at most one has a given date. *)
Lemma one_per_date (files : list FileEntry) (t : Z) :
  List.NoDup (map lastModified files) ->
  length (List.filter (fun f => (lastModified f =? t)%Z) files) <= 1.
Proof.
  induction files as [| x r IH]; simpl; intros Hnd; [lia |].
  inversion Hnd as [| ? ? Hx Hr]; subst.
  destruct (Z.eqb (lastModified x) t) eqn:E; [| apply IH; exact Hr].
  apply Z.eqb_eq in E. simpl.
  assert (Hnone : List.filter (fun f => (lastModified f =? t)%Z) r = []).
  { clear -Hx E. induction r as [| y r IH]; simpl; [reflexivity |].
    destruct (Z.eqb (lastModified y) t) eqn:Ey.
    - apply Z.eqb_eq in Ey. exfalso. apply Hx. simpl. left. congruence.
    - apply IH. intros Hin. apply Hx. simpl. right. exact Hin. }
  rewrite Hnone. simpl. lia.
Qed.

(** X12. On entries of pairwise distinct dates, sorting with ['DESC'] gives
    the reverse of sorting ascending (with ['ASC'], with no value, or with any
    other value). With equal dates it need not: ties keep the order of the
    input under both. *)
Theorem sortFilesByDate_desc_is_reverse (files : list FileEntry) (sortByDate : JsVal) :
  List.NoDup (map lastModified files) ->
  sortByDate <> JsStr "DESC" ->
  sortFilesByDate files (JsStr "DESC") = rev (sortFilesByDate files sortByDate).
Proof.
  intros Hnd Hs.
  apply (stable_sorted_unique (fun f => (- lastModified f)%Z)).
  - eapply StronglySorted_weaken; [| apply sortFilesByDate_descending].
    intros a b H. simpl in H. lia.
  - eapply StronglySorted_weaken;
      [| apply StronglySorted_rev, (sortFilesByDate_ascending files Hs)].
    intros a b H. simpl in H. lia.
  - intros t.
    assert (Hext : forall l,
              List.filter (fun f => (- lastModified f =? t)%Z) l
              = List.filter (fun f => (lastModified f =? - t)%Z) l).
    { intros l. apply List.filter_ext. intros f.
      destruct (Z.eqb_spec (- lastModified f) t), (Z.eqb_spec (lastModified f) (- t));
        try reflexivity; lia. }
    rewrite !Hext, filter_rev_list, !sortFilesByDate_stable.
    pose proof (@one_per_date files (- t)%Z Hnd) as Hone.
    destruct (List.filter (fun f => (lastModified f =? - t)%Z) files)
      as [| x [| y r]]; simpl in *; try reflexivity. lia.
Qed.

Lemma sortFilesByDate_desc_is_reverse_witness :
  sortFilesByDate (firstn 2 three_entries) (JsStr "DESC")
  = rev (sortFilesByDate (firstn 2 three_entries) JsUndefined).
Proof.
  apply sortFilesByDate_desc_is_reverse.
  - repeat constructor; simpl; intuition discriminate.
  - discriminate.
Defined.

(** With equal dates the two results are not each other's reverse. *)
Example sortFilesByDate_ties_not_reversed :
  sortFilesByDate three_entries (JsStr "DESC")
  <> rev (sortFilesByDate three_entries (JsStr "ASC")).
Proof.
  vm_compute. discriminate.
Qed.

(** ** ACL and copy *)

Lemma prefix_spec (needle hay : string) :
  String.prefix needle hay = true <-> exists post, hay = (needle ++ post)%string.
Proof.
  revert hay. induction needle as [| a n IH]; intros hay.
  - split; [intros _; exists hay; reflexivity | destruct hay; reflexivity].
  - destruct hay as [| b h]; simpl.
    + split; [discriminate | intros [post H]; discriminate H].
    + destruct (ascii_dec a b) as [-> | Hne].
      * rewrite IH. split; intros [post H]; exists post.
        -- rewrite H. reflexivity.
        -- change (String b h = String b (n ++ post)%string) in H.
           inversion H. reflexivity.
      * split; [discriminate |]. intros [post H].
        change (String b h = String a (n ++ post)%string) in H.
        inversion H. congruence.
Qed.

(** [includes] finds exactly the substrings. *)
Lemma includes_spec (needle hay : string) :
  includes needle hay = true
  <-> exists pre post, hay = (pre ++ needle ++ post)%string.
Proof.
  split.
  - induction hay as [| c r IH]; cbn [includes]; intros H.
    + rewrite orb_false_r in H. apply prefix_spec in H. destruct H as [post H].
      exists EmptyString, post. exact H.
    + apply orb_prop in H. destruct H as [H | H].
      * apply prefix_spec in H. destruct H as [post H].
        exists EmptyString, post. exact H.
      * destruct (IH H) as [pre [post E]]. exists (String c pre), post.
        rewrite E. reflexivity.
  - intros [pre [post H]]. revert hay H.
    induction pre as [| c pre IH]; intros hay H.
    + assert (P : String.prefix needle hay = true).
      { apply prefix_spec. exists post. exact H. }
      destruct hay; cbn [includes]; rewrite P; reflexivity.
    + change (hay = String c (pre ++ needle ++ post)%string) in H. subst hay.
      cbn [includes]. rewrite (IH _ eq_refl). apply orb_true_r.
Qed.

(** The callback of [some] accepts the grants to a group whose URI holds
    [AllUsers], of the permission [READ] and no other. *)
Lemma grants_public_read_spec (g : Grant) :
  grants_public_read g = true
  <-> (exists pre post, GranteeURI g = Some (pre ++ "AllUsers" ++ post)%string)
      /\ Permission g = "READ".
Proof.
  unfold grants_public_read. rewrite !andb_true_iff, String.eqb_eq.
  split.
  - intros [[_ Hinc] Hread]. split; [| exact Hread].
    apply includes_spec in Hinc. destruct Hinc as [pre [post E]].
    exists pre, post. destruct (GranteeURI g) as [uri |]; simpl in E.
    + rewrite E. reflexivity.
    + exfalso. destruct pre; discriminate E.
  - intros [[pre [post E]] Hread]. rewrite E. simpl.
    split; [| exact Hread]. split.
    + destruct pre; reflexivity.
    + apply includes_spec. exists pre, post. reflexivity.
Qed.

Section AclAndCopy.
Variable W : Type.
Variable s3 : forall X : Type, ObjectRequest X -> W -> W * Settled X.

Lemma play_isFilePublic (this : SpacesClient) (filePath : string) (w : W) :
  play s3 (isFilePublic this filePath) w
  = let acl := S3GetObjectAcl (bucket this) filePath in
    let (w', x) := s3 acl w in
    ([ObjEv acl x], w',
     match x with
     | inl e => Throws e
     | inr Grants => Returns (existsb grants_public_read Grants)
     end).
Proof.
  unfold isFilePublic, ask. simpl.
  destruct (s3 (S3GetObjectAcl (bucket this) filePath) w) as [w' [e | Grants]];
    reflexivity.
Qed.

Lemma play_then (A B : Type) (s : Script A) (k : A -> Script B) (w : W) :
  play s3 (then_ s k) w
  = let '(t, w', o) := play s3 s w in
    match o with
    | Returns a => let '(t2, w2, o2) := play s3 (k a) w' in (t ++ t2, w2, o2)
    | Throws e => (t, w', Throws e)
    | Unmodelled => (t, w', Unmodelled)
    end.
Proof.
  revert w. induction s as [o | X r f IH]; intros w.
  - destruct o as [a | e |]; simpl; try reflexivity.
    destruct (play s3 (k a) w) as [[t2 w2] o2]. reflexivity.
  - simpl. destruct (s3 r w) as [w' x]. rewrite IH.
    destruct (play s3 (f x) w') as [[t w1] o].
    destruct o as [a | e |]; try reflexivity.
    destruct (play s3 (k a) w1) as [[t2 w2] o2]. reflexivity.
Qed.

(** X13. When the ACL of the object is answered, [isFilePublic] sends that
    one request and returns true exactly when some grant goes to a grantee
    whose URI holds [AllUsers] with the permission [READ]; a grant of
    [FULL_CONTROL] or [WRITE] to all users does not count, nor does a grant to
    a grantee without URI. *)
Theorem isFilePublic_spec (this : SpacesClient) (filePath : string) (w w' : W)
    (Grants : list Grant) :
  s3 (S3GetObjectAcl (bucket this) filePath) w = (w', inr Grants) ->
  exists isPublic,
    play s3 (isFilePublic this filePath) w
    = ([ObjEv (S3GetObjectAcl (bucket this) filePath) (inr Grants)], w',
       Returns isPublic)
    /\ (isPublic = true <->
        exists g, In g Grants
                  /\ (exists pre post,
                        GranteeURI g = Some (pre ++ "AllUsers" ++ post)%string)
                  /\ Permission g = "READ").
Proof.
  intros Hacl. exists (existsb grants_public_read Grants).
  rewrite play_isFilePublic. cbv zeta. rewrite Hacl. split; [reflexivity |].
  rewrite existsb_exists. split.
  - intros [g [Hin Hg]]. exists g. split; [exact Hin |].
    apply grants_public_read_spec. exact Hg.
  - intros [g [Hin Hg]]. exists g. split; [exact Hin |].
    apply grants_public_read_spec. exact Hg.
Qed.

(** X14. When the ACL of the source is answered, [copyFile] sends the ACL
    request and then one copy, from [/bucket/source] to the destination key
    in the same bucket, and ends as the copy does. The ACL of the copy is
    [public-read] exactly when the source is public in the sense of
    [isFilePublic], and [private] in every other case: no other ACL of the
    source is carried over. *)
Theorem copyFile_acl (this : SpacesClient) (sourcePath destinationPath : string)
    (w w1 : W) (Grants : list Grant) :
  s3 (S3GetObjectAcl (bucket this) sourcePath) w = (w1, inr Grants) ->
  exists acl w2 y,
    play s3 (copyFile this sourcePath destinationPath) w
    = ([ObjEv (S3GetObjectAcl (bucket this) sourcePath) (inr Grants);
        ObjEv (S3CopyObject
                 {| CopyBucket := bucket this;
                    CopySource := ("/" ++ bucket this ++ "/" ++ sourcePath)%string;
                    CopyKey := destinationPath;
                    CopyACL := acl |}) y],
       w2, awaited y)
    /\ (acl = "public-read" \/ acl = "private")
    /\ (acl = "public-read" <->
        exists g, In g Grants
                  /\ (exists pre post,
                        GranteeURI g = Some (pre ++ "AllUsers" ++ post)%string)
                  /\ Permission g = "READ").
Proof.
  intros Hacl. unfold copyFile. rewrite play_then, play_isFilePublic. cbv zeta.
  rewrite Hacl.
  set (public := existsb grants_public_read Grants).
  exists (if public then "public-read" else "private")%string.
  unfold ask. simpl play.
  destruct (s3 (S3CopyObject _) w1) as [w2 y]. exists w2, y.
  split; [destruct y; reflexivity |].
  split; [destruct public; auto |].
  assert (Hp : public = true
               <-> exists g, In g Grants
                     /\ (exists pre post,
                           GranteeURI g = Some (pre ++ "AllUsers" ++ post)%string)
                     /\ Permission g = "READ").
  { subst public. rewrite existsb_exists.
    split; intros [g [Hin Hg]]; exists g; (split; [exact Hin |]);
      apply grants_public_read_spec; exact Hg. }
  rewrite <- Hp. destruct public; split; intros H; try reflexivity; discriminate.
Qed.

(** X15. When the ACL of the source cannot be read, [copyFile] fails with
    that error and sends no copy. *)
Theorem copyFile_acl_rejected (this : SpacesClient) (sourcePath destinationPath : string)
    (w w1 : W) (e : Error) :
  s3 (S3GetObjectAcl (bucket this) sourcePath) w = (w1, inl e) ->
  play s3 (copyFile this sourcePath destinationPath) w
  = ([ObjEv (S3GetObjectAcl (bucket this) sourcePath) (inl e)], w1, Throws e).
Proof.
  intros Hacl. unfold copyFile. rewrite play_then, play_isFilePublic. cbv zeta.
  rewrite Hacl. reflexivity.
Qed.
End AclAndCopy.

Lemma isFilePublic_spec_witness :
  exists isPublic,
    play (object_mock example_acls (inr tt)) (isFilePublic (client None) "public.png") 0
    = ([ObjEv (S3GetObjectAcl "assets" "public.png")
          (inr [ {| GranteeURI := None; Permission := "FULL_CONTROL" |};
                 {| GranteeURI := Some all_users; Permission := "READ" |} ])],
       1, Returns isPublic)
    /\ (isPublic = true <->
        exists g,
          In g [ {| GranteeURI := None; Permission := "FULL_CONTROL" |};
                 {| GranteeURI := Some all_users; Permission := "READ" |} ]
          /\ (exists pre post,
                GranteeURI g = Some (pre ++ "AllUsers" ++ post)%string)
          /\ Permission g = "READ").
Proof.
  apply (@isFilePublic_spec nat (object_mock example_acls (inr tt)) (client None)
           "public.png" 0 1
           [ {| GranteeURI := None; Permission := "FULL_CONTROL" |};
             {| GranteeURI := Some all_users; Permission := "READ" |} ]).
  reflexivity.
Defined.

Lemma copyFile_acl_witness :
  exists acl w2 y,
    play (object_mock example_acls (inr tt))
         (copyFile (client None) "private.png" "copies/private.png") 0
    = ([ObjEv (S3GetObjectAcl "assets" "private.png")
          (inr [ {| GranteeURI := None; Permission := "FULL_CONTROL" |} ]);
        ObjEv (S3CopyObject
                 {| CopyBucket := "assets";
                    CopySource := ("/" ++ "assets" ++ "/" ++ "private.png")%string;
                    CopyKey := "copies/private.png";
                    CopyACL := acl |}) y],
       w2, awaited y)
    /\ (acl = "public-read" \/ acl = "private")
    /\ (acl = "public-read" <->
        exists g,
          In g [ {| GranteeURI := None; Permission := "FULL_CONTROL" |} ]
          /\ (exists pre post,
                GranteeURI g = Some (pre ++ "AllUsers" ++ post)%string)
          /\ Permission g = "READ").
Proof.
  apply (@copyFile_acl nat (object_mock example_acls (inr tt)) (client None)
           "private.png" "copies/private.png" 0 1
           [ {| GranteeURI := None; Permission := "FULL_CONTROL" |} ]).
  reflexivity.
Defined.

Lemma copyFile_acl_rejected_witness :
  play (object_mock example_acls (inr tt))
       (copyFile (client None) "missing.png" "copies/missing.png") 0
  = ([ObjEv (S3GetObjectAcl "assets" "missing.png") (inl (Rejection "NoSuchKey"))],
     1, Throws (Rejection "NoSuchKey")).
Proof.
  apply (@copyFile_acl_rejected nat (object_mock example_acls (inr tt)) (client None)
           "missing.png" "copies/missing.png" 0 1 (Rejection "NoSuchKey")).
  reflexivity.
Defined.

(** ** Downloads, in general *)

Module DownloadMore.
Import Download.

Section Steps.
Variable filePathToSave : string.

Lemma step_other_files (s : State) (ev : Event) (p : string) :
  p <> filePathToSave -> fs (step filePathToSave s ev) !! p = fs s !! p.
Proof.
  intros Hp. destruct ev as [| bytes | error | error |]; simpl.
  - destruct (fd s); simpl; try reflexivity.
    apply lookup_insert_ne. congruence.
  - destruct (fd s); simpl; try reflexivity.
    apply lookup_alter_ne. congruence.
  - unfold on_error, unlinkSync.
    destruct (fs s !! filePathToSave); simpl; [| reflexivity].
    apply lookup_delete_ne. congruence.
  - reflexivity.
  - reflexivity.
Qed.

Lemma steps_other_files (evs : list Event) (s : State) (p : string) :
  p <> filePathToSave ->
  fs (fold_left (step filePathToSave) evs s) !! p = fs s !! p.
Proof.
  intros Hp. revert s. induction evs as [| ev evs IH]; intros s; simpl;
    [reflexivity |].
  rewrite IH. apply step_other_files. exact Hp.
Qed.

(** An event that is no error of the request leaves a pending promise
    pending, but for the end of the writing, which fulfils it; a settled
    promise stays as it is. *)
Lemma step_quiet (s : State) (ev : Event) :
  is_request_error ev = false ->
  promise (step filePathToSave s ev)
  = if is_finish ev then settle (Fulfilled filePathToSave) (promise s)
    else promise s.
Proof.
  intros He. destruct ev as [| bytes | error | error |]; simpl;
    try discriminate; try reflexivity; destruct (fd s); reflexivity.
Qed.

Lemma steps_quiet_pending (evs : list Event) (s : State) :
  forallb (fun ev => negb (is_request_error ev)) evs = true ->
  existsb is_finish evs = false ->
  promise (fold_left (step filePathToSave) evs s) = promise s.
Proof.
  revert s. induction evs as [| ev evs IH]; intros s Hq Hf; simpl in *;
    [reflexivity |].
  apply andb_prop in Hq. destruct Hq as [Hev Hq].
  apply orb_false_elim in Hf. destruct Hf as [Hfin Hf].
  rewrite (IH _ Hq Hf), step_quiet by (apply negb_true_iff; exact Hev).
  rewrite Hfin. reflexivity.
Qed.

(** Every handler leaves a fulfilled promise fulfilled. *)
Lemma steps_fulfilled (evs : list Event) (s : State) (v : string) :
  promise s = Fulfilled v ->
  promise (fold_left (step filePathToSave) evs s) = Fulfilled v.
Proof.
  revert s. induction evs as [| ev evs IH]; intros s Hp; simpl; [exact Hp |].
  apply IH. destruct ev as [| bytes | error | error |]; simpl.
  - destruct (fd s); exact Hp.
  - destruct (fd s); exact Hp.
  - unfold on_error. destruct (unlinkSync filePathToSave (fs s)); simpl;
      rewrite Hp; reflexivity.
  - exact Hp.
  - rewrite Hp. reflexivity.
Qed.

(** How one event can settle the promise. *)
Lemma step_promise (s : State) (ev : Event) :
  match promise (step filePathToSave s ev) with
  | Pending => True
  | Fulfilled v =>
      promise s = Fulfilled v \/ (v = filePathToSave /\ ev = WriteFinish)
  | Rejected e =>
      promise s = Rejected e
      \/ (ev = RequestError e /\ is_Some (fs s !! filePathToSave))
  end.
Proof.
  destruct ev as [| bytes | error | error |]; simpl.
  - destruct (fd s); simpl; destruct (promise s); auto.
  - destruct (fd s); simpl; destruct (promise s); auto.
  - unfold on_error, unlinkSync.
    destruct (fs s !! filePathToSave) as [c |] eqn:E; simpl.
    + destruct (promise s); simpl; auto.
    + destruct (promise s); auto.
  - destruct (promise s); auto.
  - destruct (promise s); simpl; auto.
Qed.

Lemma steps_promise (evs : list Event) (s : State) :
  match promise (fold_left (step filePathToSave) evs s) with
  | Pending => True
  | Fulfilled v =>
      promise s = Fulfilled v \/ (v = filePathToSave /\ In WriteFinish evs)
  | Rejected e => promise s = Rejected e \/ In (RequestError e) evs
  end.
Proof.
  revert s. induction evs as [| ev evs IH]; intros s; simpl.
  - destruct (promise s); auto.
  - specialize (IH (step filePathToSave s ev)).
    pose proof (step_promise s ev) as Hs.
    destruct (promise (fold_left (step filePathToSave) evs (step filePathToSave s ev)))
      as [| v | e]; [exact I | |].
    + destruct IH as [IH | [-> Hin]]; [| right; auto].
      rewrite IH in Hs. destruct Hs as [Hs | [-> ->]]; [left; exact Hs |].
      right. auto.
    + destruct IH as [IH | Hin]; [| right; auto].
      rewrite IH in Hs. destruct Hs as [Hs | [-> _]]; [left; exact Hs |].
      right. auto.
Qed.

(** The chunks are appended to the open file; nothing else changes. *)
Lemma steps_chunks (chunks : list (list ascii)) (s : State) (content : list ascii) :
  fd s = OpenLinked -> fs s !! filePathToSave = Some content ->
  let s' := fold_left (step filePathToSave) (map Chunk chunks) s in
  fd s' = OpenLinked /\ promise s' = promise s /\ uncaught s' = uncaught s
  /\ fs s' !! filePathToSave = Some (content ++ concat chunks).
Proof.
  revert s content. induction chunks as [| c chunks IH]; intros s content Hfd Hfile.
  - simpl. rewrite app_nil_r. auto.
  - cbn [map fold_left concat].
    assert (Hfd' : fd (step filePathToSave s (Chunk c)) = OpenLinked).
    { simpl. rewrite Hfd. reflexivity. }
    assert (Hfile' : fs (step filePathToSave s (Chunk c)) !! filePathToSave
                     = Some (content ++ c)).
    { simpl. rewrite Hfd. simpl. rewrite lookup_alter_eq, Hfile. reflexivity. }
    destruct (IH _ _ Hfd' Hfile') as [H1 [H2 [H3 H4]]].
    split; [exact H1 |]. split; [rewrite H2; simpl; rewrite Hfd; reflexivity |].
    split; [rewrite H3; simpl; rewrite Hfd; reflexivity |].
    rewrite H4, <- app_assoc. reflexivity.
Qed.
End Steps.

(** When the directory step fails nothing is delivered; otherwise the events
    run from the starting state. *)
Lemma downloadFile_runs (filePathToRead filePathToSave : string)
    (createDirIfNotExists : JsVal) (mkdir : Settled unit)
    (files : gmap string (list ascii)) (events : list Event) :
  (truthy (default_to (JsBool true) createDirIfNotExists) = true -> mkdir = inr tt) ->
  downloadFile filePathToRead filePathToSave createDirIfNotExists mkdir files events
  = fold_left (step filePathToSave) events
      {| fs := files; fd := NotOpened; promise := Pending; uncaught := [] |}.
Proof.
  intros Hmk. unfold downloadFile.
  destruct (truthy (default_to (JsBool true) createDirIfNotExists)).
  - rewrite (Hmk eq_refl). reflexivity.
  - reflexivity.
Qed.

(** X16. Whatever the request and the write stream deliver, and however the
    directory step goes, [downloadFile] changes no file but the one at
    [filePathToSave]. *)
Theorem downloadFile_other_files (filePathToRead filePathToSave : string)
    (createDirIfNotExists : JsVal) (mkdir : Settled unit)
    (files : gmap string (list ascii)) (events : list Event) (p : string) :
  p <> filePathToSave ->
  fs (downloadFile filePathToRead filePathToSave createDirIfNotExists mkdir
        files events) !! p
  = files !! p.
Proof.
  intros Hp. unfold downloadFile.
  destruct (if truthy (default_to (JsBool true) createDirIfNotExists)
            then mkdir else inr tt) as [e | []].
  - reflexivity.
  - rewrite steps_other_files by exact Hp. reflexivity.
Qed.

Lemma downloadFile_other_files_witness :
  fs (downloadFile "img/a.png" "/tmp/a.png" JsUndefined (inr tt)
        {[ "/tmp/b.png" := URL.chars "kept" ]}
        [WriteOpened; Chunk (URL.chars "abc"); RequestError (Rejection "ECONNRESET")])
     !! "/tmp/b.png"
  = ({[ "/tmp/b.png" := URL.chars "kept" ]} : gmap string (list ascii)) !! "/tmp/b.png".
Proof.
  apply (@downloadFile_other_files "img/a.png" "/tmp/a.png" JsUndefined (inr tt)
           {[ "/tmp/b.png" := URL.chars "kept" ]}
           [WriteOpened; Chunk (URL.chars "abc"); RequestError (Rejection "ECONNRESET")]
           "/tmp/b.png").
  discriminate.
Defined.

(** X17. A download that meets no error: when the directory step does not
    fail and the write stream opens the file, writes the chunks and finishes,
    the file at [filePathToSave] holds exactly the chunks in order, whatever
    it held before, every other file is as it was, the promise is fulfilled
    with [filePathToSave] and no handler has thrown. *)
Theorem downloadFile_success (filePathToRead filePathToSave : string)
    (createDirIfNotExists : JsVal) (mkdir : Settled unit)
    (files : gmap string (list ascii)) (chunks : list (list ascii)) :
  (truthy (default_to (JsBool true) createDirIfNotExists) = true -> mkdir = inr tt) ->
  let s := downloadFile filePathToRead filePathToSave createDirIfNotExists mkdir
             files (WriteOpened :: map Chunk chunks ++ [WriteFinish]) in
  fs s = <[filePathToSave := concat chunks]> files
  /\ promise s = Fulfilled filePathToSave
  /\ uncaught s = [].
Proof.
  intros Hmk s. subst s. rewrite downloadFile_runs by exact Hmk.
  cbn [fold_left]. rewrite fold_left_app. cbn [fold_left].
  set (opened := step filePathToSave
                   {| fs := files; fd := NotOpened; promise := Pending;
                      uncaught := [] |} WriteOpened).
  assert (Hfd : fd opened = OpenLinked) by reflexivity.
  assert (Hfile : fs opened !! filePathToSave = Some []).
  { subst opened. simpl. apply lookup_insert_eq. }
  destruct (steps_chunks filePathToSave chunks opened Hfd Hfile)
    as [H1 [H2 [H3 H4]]].
  set (written := fold_left (step filePathToSave) (map Chunk chunks) opened) in *.
  split; [| split].
  - simpl. apply map_eq. intros p.
    destruct (decide (p = filePathToSave)) as [-> | Hne].
    + rewrite H4, lookup_insert_eq. reflexivity.
    + rewrite lookup_insert_ne by congruence.
      subst written. rewrite steps_other_files by exact Hne.
      subst opened. simpl. apply lookup_insert_ne. congruence.
  - simpl. rewrite H2. reflexivity.
  - simpl. rewrite H3. reflexivity.
Qed.

Lemma downloadFile_success_witness :
  let s := downloadFile "img/a.png" "/tmp/a.png" (JsBool false) (inl (Rejection "EACCES"))
             {[ "/tmp/a.png" := URL.chars "old content" ]}
             (WriteOpened :: map Chunk [URL.chars "abc"; URL.chars "def"]
                ++ [WriteFinish]) in
  fs s = <["/tmp/a.png" := concat [URL.chars "abc"; URL.chars "def"]]>
           {[ "/tmp/a.png" := URL.chars "old content" ]}
  /\ promise s = Fulfilled "/tmp/a.png"
  /\ uncaught s = [].
Proof.
  apply (@downloadFile_success "img/a.png" "/tmp/a.png" (JsBool false)
           (inl (Rejection "EACCES"))
           {[ "/tmp/a.png" := URL.chars "old content" ]}
           [URL.chars "abc"; URL.chars "def"]).
  simpl. discriminate.
Defined.

(** X18. The call is settled by the end of the writing and by nothing else
    that is no error of the request. When the directory step does not fail
    and the request has emitted no error by then, the ['finish'] of the write
    stream fulfils the promise with [filePathToSave], and whatever is
    delivered afterwards, an error of the request included, leaves it
    fulfilled with that path. As long as neither a ['finish'] nor an error of
    the request is delivered the promise stays pending: chunks, and the end
    or an error of the read stream, settle nothing. *)
Theorem downloadFile_settles_on_finish (filePathToRead filePathToSave : string)
    (createDirIfNotExists : JsVal) (mkdir : Settled unit)
    (files : gmap string (list ascii)) (before after : list Event) :
  (truthy (default_to (JsBool true) createDirIfNotExists) = true -> mkdir = inr tt) ->
  forallb (fun ev => negb (is_request_error ev)) before = true ->
  existsb is_finish before = false ->
  promise (downloadFile filePathToRead filePathToSave createDirIfNotExists mkdir
             files before)
  = Pending
  /\ promise (downloadFile filePathToRead filePathToSave createDirIfNotExists mkdir
                files (before ++ WriteFinish :: after))
     = Fulfilled filePathToSave.
Proof.
  intros Hmk Hq Hf. rewrite !downloadFile_runs by exact Hmk.
  pose proof (steps_quiet_pending filePathToSave before
                {| fs := files; fd := NotOpened; promise := Pending; uncaught := [] |}
                Hq Hf) as Hp.
  split; [exact Hp |].
  rewrite fold_left_app. cbn [fold_left]. apply steps_fulfilled.
  simpl. rewrite Hp. reflexivity.
Qed.

Lemma downloadFile_settles_on_finish_witness :
  promise (downloadFile "img/a.png" "/tmp/a.png" JsUndefined (inr tt) ∅
             [WriteOpened; Chunk (URL.chars "abc"); StreamError (Rejection "ECONNRESET")])
  = Pending
  /\ promise (downloadFile "img/a.png" "/tmp/a.png" JsUndefined (inr tt) ∅
                ([WriteOpened; Chunk (URL.chars "abc");
                  StreamError (Rejection "ECONNRESET")]
                 ++ WriteFinish :: [RequestError (Rejection "ECONNRESET")]))
     = Fulfilled "/tmp/a.png".
Proof.
  apply (@downloadFile_settles_on_finish "img/a.png" "/tmp/a.png" JsUndefined
           (inr tt) ∅
           [WriteOpened; Chunk (URL.chars "abc"); StreamError (Rejection "ECONNRESET")]
           [RequestError (Rejection "ECONNRESET")]); reflexivity.
Defined.

(** X19. How the promise of [downloadFile] can settle: it is fulfilled only
    with [filePathToSave] and only after the write stream has finished; it is
    rejected only with the error of the directory step or with an error that
    the request has emitted. *)
Theorem downloadFile_settlement (filePathToRead filePathToSave : string)
    (createDirIfNotExists : JsVal) (mkdir : Settled unit)
    (files : gmap string (list ascii)) (events : list Event) :
  match promise (downloadFile filePathToRead filePathToSave createDirIfNotExists
                   mkdir files events) with
  | Pending => True
  | Fulfilled v => v = filePathToSave /\ In WriteFinish events
  | Rejected e =>
      (truthy (default_to (JsBool true) createDirIfNotExists) = true
       /\ mkdir = inl e)
      \/ In (RequestError e) events
  end.
Proof.
  unfold downloadFile.
  destruct (truthy (default_to (JsBool true) createDirIfNotExists)) eqn:Hflag.
  - destruct mkdir as [e | []]; simpl.
    + left. auto.
    + pose proof (steps_promise filePathToSave events
                    {| fs := files; fd := NotOpened; promise := Pending;
                       uncaught := [] |}) as H.
      destruct (promise (fold_left _ events _)) as [| v | e]; [exact I | |];
        simpl in H; destruct H as [H | H]; try discriminate H; auto.
  - pose proof (steps_promise filePathToSave events
                  {| fs := files; fd := NotOpened; promise := Pending;
                     uncaught := [] |}) as H.
    destruct (promise (fold_left _ events _)) as [| v | e]; [exact I | |];
      simpl in H; destruct H as [H | H]; try discriminate H; auto.
Qed.
End DownloadMore.

(** ** The path never decides whether a URL can be built *)

Module URLMore.
Import URL.

Lemma drop_while_keeps (p : ascii -> bool) (a x : list ascii) (c : ascii) :
  p c = false -> exists a', drop_while p (a ++ c :: x) = a' ++ c :: x.
Proof.
  intros Hc. induction a as [| d a IH]; simpl.
  - rewrite Hc. exists []. reflexivity.
  - destruct (p d).
    + exact IH.
    + exists (d :: a). reflexivity.
Qed.

(** Stripping keeps everything up to the last character that is neither a
    control nor a space. *)
Lemma strip_keeps (c0 c1 : ascii) (m p : list ascii) :
  is_c0_or_space c0 = false -> is_c0_or_space c1 = false ->
  exists p', strip (c0 :: m ++ c1 :: p) = c0 :: m ++ c1 :: p'.
Proof.
  intros H0 H1. unfold strip. cbn [drop_while]. rewrite H0.
  change (c0 :: m ++ c1 :: p) with ((c0 :: m) ++ c1 :: p).
  rewrite rev_app_distr. cbn [rev]. rewrite <- !app_assoc. cbn [app].
  destruct (drop_while_keeps is_c0_or_space (rev p) (rev m ++ [c0]) c1 H1)
    as [a' ->].
  exists (rev a'). rewrite rev_app_distr. cbn [rev].
  rewrite !rev_app_distr, rev_involutive. cbn [rev app].
  rewrite <- !app_assoc. reflexivity.
Qed.

Lemma drop_while_app (p : ascii -> bool) (a1 a2 x : list ascii) (c : ascii) :
  p c = false ->
  drop_while p ((a1 ++ c :: a2) ++ x) = drop_while p (a1 ++ c :: a2) ++ x.
Proof.
  intros Hc. induction a1 as [| d a1 IH]; simpl.
  - rewrite Hc. reflexivity.
  - destruct (p d); [exact IH | reflexivity].
Qed.

Lemma span_app_stop (p : ascii -> bool) (d x : list ascii) (c : ascii) :
  p c = true ->
  span p (d ++ c :: x) = (fst (span p d), snd (span p d) ++ c :: x).
Proof.
  intros Hc. induction d as [| e d IH]; simpl.
  - rewrite Hc. reflexivity.
  - destruct (p e); [reflexivity |].
    rewrite IH. destruct (span p d) as [a b]. reflexivity.
Qed.

(** The authority of [https://bucket.endpoint/path] is read off the bucket
    and the endpoint. *)
Lemma parse_prefix (b e p : list ascii) :
  exists rest,
    let s := remove_tab_newline
               (strip (chars "https://" ++ (b ++ "."%char :: e) ++ "/"%char :: p)) in
    starts_with (chars "https:") s = true
    /\ span is_authority_end (drop_while is_slash (skipn 6 s))
       = (fst (span is_authority_end
                 (drop_while is_slash (remove_tab_newline (b ++ "."%char :: e)))),
          rest).
Proof.
  destruct (@strip_keeps "h" "/"
              (chars "ttps://" ++ (b ++ "."%char :: e)) p eq_refl eq_refl)
    as [p' Hs].
  change (chars "https://" ++ (b ++ "."%char :: e) ++ "/"%char :: p)
    with ("h"%char :: (chars "ttps://" ++ (b ++ "."%char :: e)) ++ "/"%char :: p).
  rewrite Hs.
  change ("h"%char :: (chars "ttps://" ++ (b ++ "."%char :: e)) ++ "/"%char :: p')
    with (chars "https://" ++ ((b ++ "."%char :: e) ++ "/"%char :: p')).
  unfold remove_tab_newline.
  rewrite !List.filter_app.
  change (List.filter (fun c => negb (is_tab_or_newline c)) (chars "https://"))
    with (chars "https://").
  change (List.filter (fun c => negb (is_tab_or_newline c)) ("."%char :: e))
    with ("."%char :: List.filter (fun c => negb (is_tab_or_newline c)) e).
  change (List.filter (fun c => negb (is_tab_or_newline c)) ("/"%char :: p'))
    with ("/"%char :: List.filter (fun c => negb (is_tab_or_newline c)) p').
  set (b' := List.filter (fun c => negb (is_tab_or_newline c)) b).
  set (e' := List.filter (fun c => negb (is_tab_or_newline c)) e).
  set (p'' := List.filter (fun c => negb (is_tab_or_newline c)) p').
  eexists. cbv zeta. split; [reflexivity |].
  change (skipn 6 (chars "https://" ++ (b' ++ "."%char :: e') ++ "/"%char :: p''))
    with ("/"%char :: "/"%char :: (b' ++ "."%char :: e') ++ "/"%char :: p'').
  change (drop_while is_slash
            ("/"%char :: "/"%char :: (b' ++ "."%char :: e') ++ "/"%char :: p''))
    with (drop_while is_slash ((b' ++ "."%char :: e') ++ "/"%char :: p'')).
  rewrite (@drop_while_app is_slash b' e' ("/"%char :: p'') "."%char eq_refl).
  rewrite (@span_app_stop is_authority_end _ p'' "/"%char eq_refl).
  reflexivity.
Qed.

(** Two paths under the same bucket and endpoint parse alike, to URLs of the
    same host and port. *)
Lemma parse_any_path (b e p p' : list ascii) :
  match parse (chars "https://" ++ (b ++ "."%char :: e) ++ "/"%char :: p),
        parse (chars "https://" ++ (b ++ "."%char :: e) ++ "/"%char :: p') with
  | Parsed u, Parsed u' => host u = host u' /\ port u = port u'
  | Failure, Failure => True
  | NotModelled, NotModelled => True
  | _, _ => False
  end.
Proof.
  unfold parse.
  destruct (parse_prefix b e p) as [rest [Hs Hsp]].
  destruct (parse_prefix b e p') as [rest' [Hs' Hsp']].
  cbv zeta in Hs, Hsp, Hs', Hsp'. rewrite Hs, Hsp, Hs', Hsp'. cbn [negb].
  set (auth := fst (span is_authority_end
                      (drop_while is_slash (remove_tab_newline (b ++ "."%char :: e))))).
  destruct (existsb (Ascii.eqb "@"%char) auth); [exact I |].
  destruct (span (Ascii.eqb ":"%char) auth) as [h prt].
  destruct h as [| c h]; [exact I |].
  destruct (host_parse (c :: h)) as [h' | |]; try exact I.
  destruct (negb (forallb is_digit (tl prt))); [exact I |].
  destruct (65535 <? digits_value 0 (tl prt))%N; [exact I |].
  destruct (path_start rest) as [pa r1]. destruct (query_fragment r1) as [q f].
  destruct (path_start rest') as [pa' r1']. destruct (query_fragment r1') as [q' f'].
  split; reflexivity.
Qed.

(** Whether the [host] setter is within the model is decided by the value. *)
Lemma set_host_any_url (u u' : t) (v : list ascii) :
  match set_host u v, set_host u' v with
  | SetDone _, SetDone _ => True
  | SetNotModelled, SetNotModelled => True
  | _, _ => False
  end.
Proof.
  unfold set_host.
  destruct (span _ (remove_tab_newline v)) as [h rest].
  destruct h as [| c h]; [exact I |].
  destruct (host_parse (c :: h)); try exact I.
  destruct rest as [| d r]; [exact I |].
  destruct (Ascii.eqb d ":"); [| exact I].
  destruct (span _ r) as [digits ?]. destruct digits; [exact I |].
  destruct (65535 <? _)%N; exact I.
Qed.
End URLMore.

(** Whether [getCDNURL] returns, throws or leaves the model is decided by the
    configuration. *)
Lemma getCDNURL_same_kind (this : SpacesClient) (path path' : string) :
  same_kind (getCDNURL this path) (getCDNURL this path').
Proof.
  unfold getCDNURL. rewrite !getURL_chars.
  rewrite (URLFacts.chars_app (bucket this) ("." ++ endpoint this)).
  change (URL.chars ("." ++ endpoint this))
    with ("."%char :: URL.chars (endpoint this)).
  pose proof (URLMore.parse_any_path (URL.chars (bucket this))
                (URL.chars (endpoint this)) (URL.chars path) (URL.chars path')) as H.
  destruct (URL.parse _) as [u | |]; destruct (URL.parse _) as [u' | |];
    try contradiction; try exact I; try reflexivity.
  set (value := if truthy_str (customCdnHost this) then the (customCdnHost this)
                else default_cdn_host).
  pose proof (URLMore.set_host_any_url u u' (URL.chars value)) as S.
  destruct (URL.set_host u _); destruct (URL.set_host u' _);
    try contradiction; exact I.
Qed.

(** X20. Whether [getCDNURL] returns or throws is decided by the bucket, the
    endpoint and the custom host, never by the path: if it returns for one
    path it returns for every path, and if it throws for one path it throws
    the same error for every path. *)
Theorem getCDNURL_any_path (this : SpacesClient) (path path' : string) :
  ((exists u, getCDNURL this path = Returns u)
   <-> (exists u', getCDNURL this path' = Returns u'))
  /\ (forall e, getCDNURL this path = Throws e <-> getCDNURL this path' = Throws e).
Proof.
  pose proof (getCDNURL_same_kind this path path') as H.
  destruct (getCDNURL this path) as [u | e |];
    destruct (getCDNURL this path') as [u' | e' |]; simpl in H;
    try contradiction.
  - split; [split; intros _; eauto |]. intros e; split; discriminate.
  - subst e'. split; [split; intros [? ?]; discriminate |].
    intros e0; split; intros E; exact E.
  - split; [split; intros [? ?]; discriminate |]. intros e; split; discriminate.
Qed.

Lemma map_outcome_all_return (A B : Type) (f : A -> Outcome B) (l : list A) :
  (forall x, In x l -> exists y, f x = Returns y) ->
  exists r, map_outcome f l = Returns r.
Proof.
  induction l as [| x l IH]; simpl; intros H; [eexists; reflexivity |].
  destruct (H x (or_introl eq_refl)) as [y ->].
  destruct IH as [r ->]; [| eexists; reflexivity].
  intros z Hz. apply H. right. exact Hz.
Qed.

Section UnbuildableURL.
Variable W : Type.
Variable gateway : forall X : Type, Request X -> W -> W * Settled X.

(** X21. When [getCDNURL] returns for some path, however chosen, every
    answered listing makes [listPathFiles] return, one entry per record of
    the listing: no key of the listing can make the building of its URL
    fail. *)
Theorem listPathFiles_returns (path : string) (options : ListOptions)
    (this : SpacesClient) (w w' : W) (objects : list S3Object)
    (probe u : string) :
  gateway (S3ListObjectsV2 (bucket this) path) w = (w', inr objects) ->
  getCDNURL this probe = Returns u ->
  exists result,
    snd (result_of gateway (listPathFiles path options this) w) = Returns result
    /\ length result = length objects.
Proof.
  intros Hlist Hprobe. unfold result_of. rewrite run_listPathFiles. cbv zeta.
  rewrite Hlist. cbn [snd].
  destruct (@map_outcome_all_return _ _
              (toFileEntry this (default_to (JsBool false) (pathOnly options)))
              objects) as [files Hfiles].
  - intros o _. unfold toFileEntry.
    destruct (truthy (default_to (JsBool false) (pathOnly options)));
      [eexists; reflexivity |].
    pose proof (getCDNURL_same_kind this probe (Key o)) as K. rewrite Hprobe in K.
    destruct (getCDNURL this (Key o)); simpl in K; try contradiction.
    eexists. reflexivity.
  - rewrite Hfiles. eexists. split; [reflexivity |].
    rewrite (Permutation_length (sortFilesByDate_perm files (sortByDate options))).
    eapply map_outcome_length. exact Hfiles.
Qed.

(** X22. When [getCDNURL] throws for some path, however chosen, a listing
    that is answered with at least one record makes [listPathFiles] without
    [pathOnly] throw that error: the listing was fetched and nothing of it is
    returned. *)
Theorem listPathFiles_throws (path : string) (options : ListOptions)
    (this : SpacesClient) (w w' : W) (objects : list S3Object)
    (probe : string) (e : Error) :
  gateway (S3ListObjectsV2 (bucket this) path) w = (w', inr objects) ->
  objects <> [] ->
  truthy (pathOnly options) = false ->
  getCDNURL this probe = Throws e ->
  run gateway (listPathFiles path options this) w
  = ([Ev (S3ListObjectsV2 (bucket this) path) (inr objects)], w', (this, Throws e)).
Proof.
  intros Hlist Hne Hp Hprobe. rewrite run_listPathFiles. cbv zeta. rewrite Hlist.
  destruct objects as [| o objects]; [congruence |].
  cbn [map_outcome]. unfold toFileEntry at 1.
  assert (Hd : truthy (default_to (JsBool false) (pathOnly options)) = false).
  { destruct (pathOnly options); simpl in *; congruence. }
  rewrite Hd.
  pose proof (getCDNURL_same_kind this probe (Key o)) as K. rewrite Hprobe in K.
  destruct (getCDNURL this (Key o)); simpl in K; try contradiction.
  subst. reflexivity.
Qed.

(** An attempt of an upload on a configuration whose URLs cannot be built
    ends in an error. *)
Lemma makeUpload_throws (src dst : string) (permission purge : JsVal)
    (options : list (string * JsVal)) (this0 this : SpacesClient) (w : W)
    (e0 : Error) :
  same_config this0 this ->
  getCDNURL this0 dst = Throws e0 ->
  exists e, snd (snd (run gateway (makeUpload src dst permission purge options this) w))
            = Throws e.
Proof.
  intros Hc Hurl. rewrite run_makeUpload. cbv zeta.
  destruct (gateway (S3Upload (uploadParams this src dst permission options)) w)
    as [w1 [e | u]]; [eexists; reflexivity |].
  destruct (truthy purge).
  - pose proof (getCDNEndpointId_frame gateway this w1) as F.
    destruct (run gateway (getCDNEndpointId this) w1) as [[t2 w2] [this2 o]].
    destruct F as [Hc2 [_ [_ [_ Hun]]]].
    destruct o as [i | e |]; [| eexists; reflexivity | congruence].
    destruct (gateway (CdnPurgeCache i (bearer (digitalOceanAPIToken this2)) [dst]) w2)
      as [w3 [e | y]]; [eexists; reflexivity |].
    cbn [snd].
    rewrite <- (getCDNURL_same_config dst (same_config_trans Hc Hc2)), Hurl.
    eexists. reflexivity.
  - cbn [snd]. rewrite <- (getCDNURL_same_config dst Hc), Hurl.
    eexists. reflexivity.
Qed.

(** X23. When [getCDNURL] throws for some path, however chosen, [uploadFile]
    never returns: every call ends in an error, after the file has been sent
    once, or [numOfAttempts] (10) times under [exponentialBackoff], also when
    every upload was fulfilled. *)
Theorem uploadFile_unbuildable_url (src dst : string) (permission : JsVal)
    (options : UploadOptions) (this : SpacesClient) (w : W)
    (probe : string) (e : Error) :
  getCDNURL this probe = Throws e ->
  let '(t, _, (_, o)) :=
    run gateway (uploadFile src dst permission options this) w in
  (exists e', o = Throws e')
  /\ uploads t = if truthy (exponentialBackoff options) then numOfAttempts else 1.
Proof.
  intros Hprobe.
  assert (Hurl : getCDNURL this dst = Throws e).
  { pose proof (getCDNURL_same_kind this probe dst) as K. rewrite Hprobe in K.
    destruct (getCDNURL this dst); simpl in K; try contradiction.
    subst. reflexivity. }
  set (request := makeUpload src dst (default_to (JsStr "private") permission)
                    (default_to (JsBool false) (purgeCache options))
                    (spacesOptions options)).
  assert (Hb : truthy (default_to (JsBool false) (exponentialBackoff options))
               = truthy (exponentialBackoff options)).
  { destruct (exponentialBackoff options); reflexivity. }
  pose (R := fun (t : list Event) (c : SpacesClient) (o : Outcome string) =>
               exists e', o = Throws e').
  assert (Hone : forall c w0, same_config this c ->
            let '(t, _, (c', o)) := run gateway (request c) w0 in
            same_config this c' /\ R t c' o).
  { intros c w0 Hc. subst request.
    pose proof (makeUpload_attempt gateway src dst
                  (default_to (JsStr "private") permission)
                  (default_to (JsBool false) (purgeCache options))
                  (spacesOptions options) w0 Hc) as H.
    pose proof (makeUpload_throws src dst (default_to (JsStr "private") permission)
                  (default_to (JsBool false) (purgeCache options))
                  (spacesOptions options) w0 Hc Hurl) as T.
    destruct (run gateway (makeUpload _ _ _ _ _ c) w0) as [[t w'] [c' o]].
    destruct H as [Hc' _]. split; [exact Hc' | exact T]. }
  assert (Hcount : forall c w0, same_config this c ->
            let '(t, _, (c', _)) := run gateway (request c) w0 in
            same_config this c' /\ uploads t = 1).
  { intros c w0 Hc. subst request.
    pose proof (makeUpload_attempt gateway src dst
                  (default_to (JsStr "private") permission)
                  (default_to (JsBool false) (purgeCache options))
                  (spacesOptions options) w0 Hc) as H.
    destruct (run gateway (makeUpload _ _ _ _ _ c) w0) as [[t w'] [c' o]].
    destruct H as [Hc' [_ [Hu _]]]. split; [exact Hc' | exact Hu]. }
  assert (Hext : forall t1 (c1 : SpacesClient) (e1 : Error) t2 (c2 : SpacesClient)
                        (o : Outcome string),
            R t1 c1 (Throws e1) -> R t2 c2 o -> R (t1 ++ t2) c2 o).
  { intros t1 c1 e1 t2 c2 o _ H2. exact H2. }
  unfold uploadFile. fold request. rewrite Hb.
  destruct (truthy (exponentialBackoff options)).
  - unfold backOff.
    pose proof (backOff_loop_rule gateway request (same_config this) R Hone Hext
                  (numOfAttempts - 1) this w (same_config_refl this)) as H.
    pose proof (backOff_loop_uploads gateway request (same_config this) Hcount
                  (numOfAttempts - 1) this w (same_config_refl this)) as U.
    destruct (run gateway (backOff_loop _ request this) w) as [[t w'] [c' o]].
    destruct H as [_ [e' ->]]. destruct U as [_ Hall].
    split; [eexists; reflexivity |]. rewrite (Hall e' eq_refl). reflexivity.
  - pose proof (Hone this w (same_config_refl this)) as H.
    pose proof (Hcount this w (same_config_refl this)) as U.
    destruct (run gateway (request this) w) as [[t w'] [c' o]].
    destruct H as [_ Hr]. destruct U as [_ Hu]. split; [exact Hr | exact Hu].
Qed.
End UnbuildableURL.

Lemma listPathFiles_returns_witness :
  let gw := mock (mock_of [] three_objects false) in
  exists result,
    snd (result_of gw (listPathFiles "img/" (list_options JsUndefined JsUndefined)
                         (client None)) 0)
    = Returns result
    /\ length result
       = length (List.filter (fun o => String.prefix "img/" (Key o)) three_objects).
Proof.
  exact (@listPathFiles_returns nat (mock (mock_of [] three_objects false))
           "img/" (list_options JsUndefined JsUndefined) (client None) 0 1
           (List.filter (fun o => String.prefix "img/" (Key o)) three_objects)
           EmptyString "https://cdn.digitaloceanspaces/" eq_refl eq_refl).
Defined.

Lemma listPathFiles_throws_witness :
  let gw := mock (mock_of [] three_objects false) in
  let this := client_of "my bucket" None None in
  run gw (listPathFiles "img/" (list_options JsUndefined JsUndefined) this) 0
  = ([Ev (S3ListObjectsV2 "my bucket" "img/")
        (inr (List.filter (fun o => String.prefix "img/" (Key o)) three_objects))],
     1, (this, Throws (TypeError_ "Invalid URL"))).
Proof.
  refine (@listPathFiles_throws nat (mock (mock_of [] three_objects false))
            "img/" (list_options JsUndefined JsUndefined)
            (client_of "my bucket" None None) 0 1
            (List.filter (fun o => String.prefix "img/" (Key o)) three_objects)
            EmptyString (TypeError_ "Invalid URL") eq_refl _ eq_refl eq_refl).
  discriminate.
Defined.

Lemma uploadFile_unbuildable_url_witness :
  let gw := mock (mock_of [] [] false) in
  let '(t, _, (_, o)) :=
    run gw (uploadFile "logo.png" "img/logo.png" JsUndefined
              (upload_options (JsBool true) JsUndefined)
              (client_of "my bucket" None None)) 0 in
  (exists e', o = Throws e') /\ uploads t = numOfAttempts.
Proof.
  exact (@uploadFile_unbuildable_url nat (mock (mock_of [] [] false))
           "logo.png" "img/logo.png" JsUndefined
           (upload_options (JsBool true) JsUndefined)
           (client_of "my bucket" None None) 0 EmptyString
           (TypeError_ "Invalid URL") eq_refl).
Defined.
